(** * GitlabExporter: a shallow embedding of [gitlab-export.py]

    The script walks the projects, groups and users of a GitLab server
    through python-gitlab and writes one CSV file per entity kind.  This
    file embeds the script's functions in Rocq and proves the properties
    its specification states about them.

    Layout: the Python data the script handles, the pure helpers
    ([access_level_name], [format_members]), the effectful exporters and
    [main] over an explicit world, and then the theorems. *)

From Stdlib Require Import Ascii ZArith QArith.
From stdpp Require Import gmap strings list sorting pretty.

Local Open Scope Z_scope.

(** ** Python values

    The attribute values the script reads from python-gitlab objects are
    decoded JSON scalars: [None], booleans, integers and strings. *)

Inductive pyval :=
  | VNone
  | VBool (b : bool)
  | VInt (n : Z)
  | VStr (s : string).

#[global] Instance pyval_eq_dec : EqDecision pyval.
Proof. solve_decision. Defined.

(** Python's truth value of an object, as tested by [or], [if] and
    [bool()]. *)
Definition truthy (v : pyval) : bool :=
  match v with
  | VNone => false
  | VBool b => b
  | VInt n => negb (n =? 0)
  | VStr s => negb (String.eqb s "")
  end.

(** [str(v)], which is also what an f-string field [{v}] renders. *)
Definition py_str (v : pyval) : string :=
  match v with
  | VNone => "None"
  | VBool true => "True"
  | VBool false => "False"
  | VInt n => pretty n
  | VStr s => s
  end.

(** [a or b] *)
Definition py_or (a b : pyval) : pyval := if truthy a then a else b.

(** A python-gitlab object: its attributes by name. A name that is not a
    key is an attribute the object does not have. *)
Abbreviation obj := (gmap string pyval).

(** [safe_get(obj, attr, default)] is [getattr(obj, attr, default)]. *)
Definition safe_get (o : obj) (attr : string) (default : pyval) : pyval :=
  match o !! attr with
  | Some v => v
  | None => default
  end.

(** ** Access-Level Resolver *)

(** The key under which an integer-like value is looked up in a dict with
    integer keys ([True == 1] and [False == 0] in Python; [None] and
    strings equal no integer). *)
Definition int_key (v : pyval) : option Z :=
  match v with
  | VInt n => Some n
  | VBool b => Some (Z.b2z b)
  | VNone | VStr _ => None
  end.

Definition ACCESS_LEVELS : gmap Z string :=
  <[10 := "Guest"]> (<[20 := "Reporter"]> (<[30 := "Developer"]>
    (<[40 := "Maintainer"]> (<[50 := "Owner"]> ∅)))).

(** [ACCESS_LEVELS.get(level, default)] *)
Definition ACCESS_LEVELS_get (level : pyval) (default : string) : string :=
  match int_key level ≫= (ACCESS_LEVELS !!.) with
  | Some name => name
  | None => default
  end.

Definition access_level_name (level : pyval) : string :=
  match level with
  | VNone => ""
  | _ => ACCESS_LEVELS_get level (py_str level)
  end.

(** ** Iterators

    What iterating a python-gitlab listing does, seen from the [for]
    loop that consumes it: it yields an item and goes on, it stops, or
    the fetch of the next page raises. *)

Inductive exn :=
  | SystemExit (code : Z)
  | AttributeError (attr : string)
  | GitlabError (msg : string).

Inductive pyiter :=
  | StopIteration
  | Yield (x : obj) (rest : pyiter)
  | Raises (e : exn).

(** The iterator over a finite sequence that ends normally. *)
Fixpoint iter_of (l : list obj) : pyiter :=
  match l with
  | [] => StopIteration
  | x :: l' => Yield x (iter_of l')
  end.

(** A listing served in pages: the iterator drains every page in order;
    [fault] is the error of the page fetch after the last good page. *)
Fixpoint iter_pages (pages : list (list obj)) (fault : option exn) : pyiter :=
  match pages with
  | [] => match fault with Some e => Raises e | None => StopIteration end
  | page :: pages' =>
      (fix items (l : list obj) : pyiter :=
         match l with
         | [] => iter_pages pages' fault
         | x :: l' => Yield x (items l')
         end) page
  end.

(** Results of code that may raise. *)
Inductive outcome (A : Type) :=
  | Ret (a : A)
  | Raise (e : exn).
Arguments Ret {A} a.
Arguments Raise {A} e.

(** What a list call with [iterator=True] gives for a collection served
    in the pages [pages]: the call fetches the first page itself, and
    raises if that fails; the iterator it returns fetches the other pages
    as it is consumed. *)
Definition paged (pages : list (list obj)) (fault : option exn) : outcome pyiter :=
  match pages, fault with
  | [], Some e => Raise e
  | _, _ => Ret (iter_pages pages fault)
  end.

(** ** Member Normalizer *)

(** The body of the loop of [format_members]: the string appended to
    [members_parts] for the entry [m]. *)
Definition member_ident (m : obj) : pyval :=
  let username := py_or (safe_get m "username" (VStr "")) (VStr "") in
  let name := py_or (safe_get m "name" (VStr "")) (VStr "") in
  let ident := if truthy username then username else name in
  if negb (truthy ident)
  then VStr ("user_id_" +:+ py_str (safe_get m "id" (VStr "")))
  else ident.

Definition member_part (m : obj) : string :=
  let access_level := safe_get m "access_level" VNone in
  let role := access_level_name access_level in
  py_str (member_ident m) +:+ ":" +:+ role.

(** [for m in members_iter: ... members_parts.append(...)] *)
Fixpoint members_loop (members_iter : pyiter) (members_parts : list string)
  : outcome (list string) :=
  match members_iter with
  | StopIteration => Ret members_parts
  | Yield m rest => members_loop rest (members_parts ++ [member_part m])
  | Raises e => Raise e
  end.

(** [set(l)]: a finite set of strings. [elements] lists it in an order of
    its own, unrelated to the order of insertion, like the iteration order
    of a Python set. *)
Definition py_set (l : list string) : gset string := list_to_set l.

(** [sorted(s)] for a collection of strings: ascending in Python's string
    order, the lexicographic order on code units. *)
Definition sorted (l : list string) : list string := merge_sort String.le l.

(** [";".join(...)] *)
Definition join (sep : string) (l : list string) : string := String.concat sep l.

(** The tokens of the summary, before they are joined. *)
Definition summary_tokens (members_parts : list string) : list string :=
  sorted (elements (py_set members_parts)).

Definition format_members (members_iter : pyiter) : outcome string :=
  match members_loop members_iter [] with
  | Ret members_parts => Ret (join ";" (summary_tokens members_parts))
  | Raise e => Raise e
  end.

(** ** The world the script runs in

    The script's effects are: files and directories it creates, lines on
    stderr and stdout, calls to the GitLab API, and pauses.  The world
    holds the file system and the clock, and a trace of what happened, in
    order.  Two things are taken for granted: the calls to the file
    system succeed (the output location is writable), and the server is a
    snapshot, giving a call the same answer whenever it is made. *)

Abbreviation path := (list string).
Abbreviation row := (list string).

(** [p / name], [p.name] and [str(p)] of [pathlib]. *)
Definition path_div (p : path) (name : string) : path := p ++ [name].
Definition path_name (p : path) : string := List.last p "".
Definition path_str (p : path) : string := join "/" p.

Inductive api_call :=
  | ApiAuth
  | ApiProjectsList (archived : bool)
  | ApiProjectsGet (id : pyval)
  | ApiProjectMembers (id : pyval) (inherited : bool)
  | ApiGroupsList
  | ApiGroupsGet (id : pyval)
  | ApiGroupMembers (id : pyval) (inherited : bool)
  | ApiUsersList
  | ApiUsersGet (id : pyval).

#[global] Instance api_call_eq_dec : EqDecision api_call.
Proof. solve_decision. Defined.

Inductive event :=
  | EvStderr (line : string)
  | EvStdout (line : string)
  | EvApi (c : api_call)
  | EvSleep (seconds : Q)
  | EvMkdir (p : path)
  | EvOpen (p : path).

(** A CSV file is the list of its rows, a row the list of its cells; the
    quoting of cells is the [csv] module's business. *)
Record world := World {
  files : gmap path (list row);
  dirs : gset path;
  clock : string;          (* the current UTC time, as [utc_stamp] formats it *)
  trace : list event;
}.

(** The files opened for writing along a trace, in order. *)
Definition opens (t : list event) : list path :=
  omap (λ e, match e with EvOpen p => Some p | _ => None end) t.

(** The API calls along a trace, in order. *)
Definition api_calls (t : list event) : list api_call :=
  omap (λ e, match e with EvApi c => Some c | _ => None end) t.

(** Computations over the world that may raise. An exception leaves the
    world as it was when it was raised: nothing is rolled back. *)
Definition M (A : Type) : Type := world → outcome A * world.

Definition ret {A} (a : A) : M A := λ w, (Ret a, w).
Definition raise {A} (e : exn) : M A := λ w, (Raise e, w).
Definition bind {A B} (c : M A) (k : A → M B) : M B :=
  λ w, match c w with
       | (Ret a, w') => k a w'
       | (Raise e, w') => (Raise e, w')
       end.

Notation "'let*' x ':=' c 'in' k" := (bind c (λ x, k))
  (at level 10, x name, c at level 100, k at level 200).
Notation "c ';;' k" := (bind c (λ _, k))
  (at level 100, k at level 200, right associativity).

Definition emit (e : event) : M unit :=
  λ w, (Ret tt, World (files w) (dirs w) (clock w) (trace w ++ [e])).

(** A computed result, as a computation. *)
Definition lift {A} (r : outcome A) : M A :=
  match r with Ret a => ret a | Raise e => raise e end.

(** The result of a call to the server: the call is recorded, then its
    result returned or its error raised. *)
Definition call {A} (c : api_call) (r : outcome A) : M A :=
  emit (EvApi c) ;; lift r.

Definition eprint (line : string) : M unit := emit (EvStderr line).
Definition print (line : string) : M unit := emit (EvStdout line).
Definition time_sleep (seconds : Q) : M unit := emit (EvSleep seconds).
Definition sys_exit {A} (code : Z) : M A := raise (SystemExit code).

Definition utc_stamp : M string := λ w, (Ret (clock w), w).

(** [o.attr]: raises [AttributeError] when the object has no such
    attribute. *)
Definition getattr (o : obj) (attr : string) : M pyval :=
  match o !! attr with
  | Some v => ret v
  | None => raise (AttributeError attr)
  end.

(** [p.mkdir(parents=True, exist_ok=True)] *)
Definition mkdir (p : path) : M unit :=
  λ w, (Ret tt, World (files w) ({[p]} ∪ dirs w) (clock w) (trace w ++ [EvMkdir p])).

(** [p.open("w", ...)]: the file is created, or truncated if it exists. *)
Definition open_w (p : path) : M unit :=
  λ w, (Ret tt, World (<[p := []]> (files w)) (dirs w) (clock w) (trace w ++ [EvOpen p])).

(** Writing one row to an open file. The [with] block closes the file on
    both its exits, so every row written is in the file afterwards. *)
Definition write_row (p : path) (r : row) : M unit :=
  λ w, (Ret tt, World (alter (λ rows, rows ++ [r]) p (files w)) (dirs w) (clock w) (trace w)).

(** ** [csv.DictWriter] *)

Record DictWriter := { dw_file : path; fieldnames : list string }.

(** How [csv] renders a value in a cell: [None] as the empty cell,
    anything else through [str]. *)
Definition csv_cell (v : pyval) : string :=
  match v with
  | VNone => ""
  | _ => py_str v
  end.

Definition dict_row (fields : list string) (d : gmap string pyval) : row :=
  (λ f, match d !! f with Some v => csv_cell v | None => "" end) <$> fields.

Definition writeheader (writer : DictWriter) : M unit :=
  write_row (dw_file writer) (fieldnames writer).

Definition writerow (writer : DictWriter) (d : gmap string pyval) : M unit :=
  write_row (dw_file writer) (dict_row (fieldnames writer) d).

(** ** The GitLab server, as python-gitlab presents it *)

(** A fetched project or group: its attributes, and what its two member
    list calls give. *)
Record entity := {
  attrs : obj;
  members_all : outcome pyiter;
  members : outcome pyiter;
}.

(** What each call gives: a list call raises, or returns the iterator
    over the collection. *)
Record gitlab := {
  gl_auth : outcome unit;
  gl_projects_list : bool → outcome pyiter;
  gl_projects_get : pyval → outcome entity;
  gl_groups_list : outcome pyiter;
  gl_groups_get : pyval → outcome entity;
  gl_users_list : outcome pyiter;
  gl_users_get : pyval → outcome obj;
}.

(** Which server answers at a URL for a token. *)
Abbreviation network := (string → string → bool → gitlab).

Definition make_gitlab_client (net : network) (url token : string) (ssl_verify : bool)
  : M gitlab :=
  let gl := net url token ssl_verify in
  call ApiAuth (gl_auth gl) ;;
  ret gl.

(** [iter_all(items_list_callable, **kwargs)] is
    [items_list_callable(iterator=True, **kwargs)]. *)
Definition iter_all {K} (items_list_callable : K → M pyiter) (kwargs : K) : M pyiter :=
  items_list_callable kwargs.

Definition projects_list (gl : gitlab) (archived : bool) : M pyiter :=
  call (ApiProjectsList archived) (gl_projects_list gl archived).
Definition projects_get (gl : gitlab) (id : pyval) : M entity :=
  call (ApiProjectsGet id) (gl_projects_get gl id).
Definition groups_list (gl : gitlab) (_ : unit) : M pyiter :=
  call ApiGroupsList (gl_groups_list gl).
Definition groups_get (gl : gitlab) (id : pyval) : M entity :=
  call (ApiGroupsGet id) (gl_groups_get gl id).
Definition users_list (gl : gitlab) (_ : unit) : M pyiter :=
  call ApiUsersList (gl_users_list gl).
Definition users_get (gl : gitlab) (id : pyval) : M obj :=
  call (ApiUsersGet id) (gl_users_get gl id).

(** [for x in it: body], with the loop's local state passed along. *)
Fixpoint for_in {S} (it : pyiter) (body : obj → S → M S) (s : S) : M S :=
  match it with
  | StopIteration => ret s
  | Yield x rest => let* s' := body x s in for_in rest body s'
  | Raises e => raise e
  end.

Definition py_bool (v : pyval) : pyval := VBool (truthy v).

(** [e.members_all.list] and [e.members.list] of a fetched project or
    group, as list callables. *)
Definition members_all_list (c : api_call) (e : entity) (_ : unit) : M pyiter :=
  call c (members_all e).
Definition members_list (c : api_call) (e : entity) (_ : unit) : M pyiter :=
  call c (members e).

(** [sleep_s > 0] *)
Definition positive_delay (sleep_s : Q) : bool := negb (Qle_bool sleep_s 0).

(** ** Entity Exporters *)

Definition projects_fields : list string :=
  [ "project_id"; "project_name"; "project_path_with_namespace";
    "http_url_to_repo"; "default_branch"; "visibility"; "archived"; "members" ].

(** The dict [export_projects] passes to [writer.writerow] for the fetched
    project [proj], with [proj.id] and [format_members(members_iter)]
    already evaluated. *)
Definition project_dict (proj_id : pyval) (proj : obj) (members_summary : string)
  : gmap string pyval :=
  {[ "project_id" := proj_id;
     "project_name" := safe_get proj "name" (VStr "");
     "project_path_with_namespace" := safe_get proj "path_with_namespace" (VStr "");
     "http_url_to_repo" := safe_get proj "http_url_to_repo" (VStr "");
     "default_branch" := safe_get proj "default_branch" (VStr "");
     "visibility" := safe_get proj "visibility" (VStr "");
     "archived" := py_bool (safe_get proj "archived" (VBool false));
     "members" := VStr members_summary ]}.

Definition export_projects (gl : gitlab) (out_csv : path) (archived : bool)
    (members_scope : string) (sleep_s : Q) : M unit :=
  let label := if archived then "archived projects" else "active projects" in
  eprint ("Exporting " +:+ label +:+ " -> " +:+ path_name out_csv +:+ " ...") ;;
  open_w out_csv ;;
  let writer := {| dw_file := out_csv; fieldnames := projects_fields |} in
  writeheader writer ;;
  let* projects := iter_all (projects_list gl) archived in
  for_in projects (λ p count,
    let count := count + 1 in
    let* p_id := getattr p "id" in
    let* proj := projects_get gl p_id in
    let* members_iter :=
      if String.eqb members_scope "all"
      then iter_all (members_all_list (ApiProjectMembers p_id true) proj) tt
      else iter_all (members_list (ApiProjectMembers p_id false) proj) tt in
    let* proj_id := getattr (attrs proj) "id" in
    let* members_summary := lift (format_members members_iter) in
    writerow writer (project_dict proj_id (attrs proj) members_summary) ;;
    (if positive_delay sleep_s then time_sleep sleep_s else ret tt) ;;
    (if count mod 50 =? 0
     then eprint ("  ..." +:+ pretty count +:+ " projects processed")
     else ret tt) ;;
    ret count) 0 ;;
  eprint ("Projects export complete: " +:+ path_str out_csv).

Definition groups_fields : list string :=
  [ "group_id"; "group_name"; "group_full_path"; "web_url"; "visibility";
    "parent_id"; "members" ].

(** The dict [export_groups] passes to [writer.writerow]. *)
Definition group_dict (grp_id : pyval) (grp : obj) (members_summary : string)
  : gmap string pyval :=
  {[ "group_id" := grp_id;
     "group_name" := safe_get grp "name" (VStr "");
     "group_full_path" := safe_get grp "full_path" (VStr "");
     "web_url" := safe_get grp "web_url" (VStr "");
     "visibility" := safe_get grp "visibility" (VStr "");
     "parent_id" := safe_get grp "parent_id" (VStr "");
     "members" := VStr members_summary ]}.

Definition export_groups (gl : gitlab) (out_csv : path)
    (members_scope : string) (sleep_s : Q) : M unit :=
  eprint ("Exporting groups -> " +:+ path_name out_csv +:+ " ...") ;;
  open_w out_csv ;;
  let writer := {| dw_file := out_csv; fieldnames := groups_fields |} in
  writeheader writer ;;
  let* groups := iter_all (groups_list gl) tt in
  for_in groups (λ g count,
    let count := count + 1 in
    let* g_id := getattr g "id" in
    let* grp := groups_get gl g_id in
    let* members_iter :=
      if String.eqb members_scope "all"
      then iter_all (members_all_list (ApiGroupMembers g_id true) grp) tt
      else iter_all (members_list (ApiGroupMembers g_id false) grp) tt in
    let* grp_id := getattr (attrs grp) "id" in
    let* members_summary := lift (format_members members_iter) in
    writerow writer (group_dict grp_id (attrs grp) members_summary) ;;
    (if positive_delay sleep_s then time_sleep sleep_s else ret tt) ;;
    (if count mod 100 =? 0
     then eprint ("  ..." +:+ pretty count +:+ " groups processed")
     else ret tt) ;;
    ret count) 0 ;;
  eprint ("Groups export complete: " +:+ path_str out_csv).

Definition users_fields : list string :=
  [ "user_id"; "username"; "name"; "state"; "is_admin"; "external"; "bot";
    "email"; "created_at"; "last_sign_in_at" ].

(** The dict [export_users] passes to [writer.writerow]. *)
Definition user_dict (user_id : pyval) (user : obj) : gmap string pyval :=
  {[ "user_id" := user_id;
     "username" := safe_get user "username" (VStr "");
     "name" := safe_get user "name" (VStr "");
     "state" := safe_get user "state" (VStr "");
     "is_admin" := py_bool (safe_get user "is_admin" (VBool false));
     "external" := py_bool (safe_get user "external" (VBool false));
     "bot" := py_bool (safe_get user "bot" (VBool false));
     "email" := safe_get user "email" (VStr "");
     "created_at" := safe_get user "created_at" (VStr "");
     "last_sign_in_at" := safe_get user "last_sign_in_at" (VStr "") ]}.

Definition export_users (gl : gitlab) (out_csv : path) (sleep_s : Q) : M unit :=
  eprint ("Exporting users -> " +:+ path_name out_csv +:+ " ...") ;;
  open_w out_csv ;;
  let writer := {| dw_file := out_csv; fieldnames := users_fields |} in
  writeheader writer ;;
  let* users := iter_all (users_list gl) tt in
  for_in users (λ u count,
    let count := count + 1 in
    let* u_id := getattr u "id" in
    let* user := users_get gl u_id in
    let* user_id := getattr user "id" in
    writerow writer (user_dict user_id user) ;;
    (if positive_delay sleep_s then time_sleep sleep_s else ret tt) ;;
    (if count mod 200 =? 0
     then eprint ("  ..." +:+ pretty count +:+ " users processed")
     else ret tt) ;;
    ret count) 0 ;;
  eprint ("Users export complete: " +:+ path_str out_csv).

(** ** Export Orchestrator *)

(** The parsed command line ([args] of [main]); [url] and [token] default
    to the environment's [GITLAB_URL] and [GITLAB_TOKEN], else to the
    empty string. Paths are relative to the working directory, so that
    [outdir.resolve()] is printed as [outdir]. *)
Record Args := {
  url : string;
  token : string;
  outdir : string;
  include_archived : bool;
  members_scope : string;
  no_ssl_verify : bool;
  sleep : Q;
}.

Definition main (net : network) (args : Args) : M unit :=
  if negb (truthy (VStr (url args))) then
    eprint "ERROR: GitLab URL not provided. Use --url or set GITLAB_URL." ;;
    sys_exit 2
  else if negb (truthy (VStr (token args))) then
    eprint "ERROR: GitLab token not provided. Use --token or set GITLAB_TOKEN." ;;
    sys_exit 2
  else
    let* outdir :=
      if truthy (VStr (outdir args)) then ret [outdir args]
      else let* stamp := utc_stamp in ret ["gitlab_export_" +:+ stamp] in
    mkdir outdir ;;
    let ssl_verify := negb (no_ssl_verify args) in
    eprint ("Connecting to " +:+ url args +:+ " (ssl_verify="
            +:+ py_str (VBool ssl_verify) +:+ ") ...") ;;
    let* gl := make_gitlab_client net (url args) (token args) ssl_verify in
    (* Active projects always *)
    export_projects gl (path_div outdir "projects.csv") false
      (members_scope args) (sleep args) ;;
    (* Archived projects in separate CSV if requested *)
    (if include_archived args
     then export_projects gl (path_div outdir "archived_projects.csv") true
            (members_scope args) (sleep args)
     else ret tt) ;;
    (* Groups *)
    export_groups gl (path_div outdir "groups.csv") (members_scope args) (sleep args) ;;
    (* Users *)
    export_users gl (path_div outdir "users.csv") (sleep args) ;;
    print (path_str outdir).

(** The status the process exits with. *)
Definition exit_status {A} (r : outcome A) : Z :=
  match r with
  | Ret _ => 0
  | Raise (SystemExit code) => code
  | Raise _ => 1
  end.

(** ** Vocabulary of the statements

    Pure readings of the exporters, used to say what a run writes. *)

(** An attribute that is absent, [None] or the empty string. *)
Definition blank (a : option pyval) : Prop :=
  a = None ∨ a = Some VNone ∨ a = Some (VStr "").

(** What the member list call of an exporter gives for a fetched project
    or group. *)
Definition scope_members (members_scope : string) (e : entity) : outcome pyiter :=
  if String.eqb members_scope "all" then members_all e else members e.

(** The row the loop of [export_projects] writes for the listed project
    [p], or the error raised before it is written. *)
Definition project_record (gl : gitlab) (members_scope : string) (p : obj) : outcome row :=
  match p !! "id" with
  | None => Raise (AttributeError "id")
  | Some p_id =>
    match gl_projects_get gl p_id with
    | Raise e => Raise e
    | Ret proj =>
      match scope_members members_scope proj with
      | Raise e => Raise e
      | Ret members_iter =>
        match attrs proj !! "id" with
        | None => Raise (AttributeError "id")
        | Some proj_id =>
          match format_members members_iter with
          | Raise e => Raise e
          | Ret summary =>
              Ret (dict_row projects_fields (project_dict proj_id (attrs proj) summary))
          end
        end
      end
    end
  end.

(** The same for [export_groups]. *)
Definition group_record (gl : gitlab) (members_scope : string) (g : obj) : outcome row :=
  match g !! "id" with
  | None => Raise (AttributeError "id")
  | Some g_id =>
    match gl_groups_get gl g_id with
    | Raise e => Raise e
    | Ret grp =>
      match scope_members members_scope grp with
      | Raise e => Raise e
      | Ret members_iter =>
        match attrs grp !! "id" with
        | None => Raise (AttributeError "id")
        | Some grp_id =>
          match format_members members_iter with
          | Raise e => Raise e
          | Ret summary =>
              Ret (dict_row groups_fields (group_dict grp_id (attrs grp) summary))
          end
        end
      end
    end
  end.

(** The same for [export_users]. *)
Definition user_record (gl : gitlab) (u : obj) : outcome row :=
  match u !! "id" with
  | None => Raise (AttributeError "id")
  | Some u_id =>
    match gl_users_get gl u_id with
    | Raise e => Raise e
    | Ret user =>
      match user !! "id" with
      | None => Raise (AttributeError "id")
      | Some user_id => Ret (dict_row users_fields (user_dict user_id user))
      end
    end
  end.

(** The items [l], then whatever [it] does. *)
Fixpoint iter_app (l : list obj) (it : pyiter) : pyiter :=
  match l with
  | [] => it
  | x :: l' => Yield x (iter_app l' it)
  end.

(** The data rows written while an iterator is consumed, and how that
    ends: rows are written until the iterator stops, or until it or an
    entity's record raises. *)
Fixpoint walk_iter (record : obj → outcome row) (it : pyiter) : list row * outcome unit :=
  match it with
  | StopIteration => ([], Ret tt)
  | Raises e => ([], Raise e)
  | Yield x rest =>
      match record x with
      | Ret r => let '(rows, res) := walk_iter record rest in (r :: rows, res)
      | Raise e => ([], Raise e)
      end
  end.

(** The same for what a list call gives: no row when the call raises. *)
Definition walk (record : obj → outcome row) (listing : outcome pyiter)
  : list row * outcome unit :=
  match listing with
  | Ret it => walk_iter record it
  | Raise e => ([], Raise e)
  end.

(** The list call [listing] gives the items [seen] and then raises [e],
    when it is made or when its iterator fetches a later page. *)
Definition raises_after (listing : outcome pyiter) (seen : list obj) (e : exn) : Prop :=
  (listing = Raise e ∧ seen = []) ∨ listing = Ret (iter_app seen (Raises e)).

(** The events that mark a stage: a file opened for writing and a call
    that lists a collection. *)
Definition is_milestone (e : event) : bool :=
  match e with
  | EvOpen _ => true
  | EvApi (ApiProjectsList _) | EvApi ApiGroupsList | EvApi ApiUsersList => true
  | _ => false
  end.

Definition milestones (t : list event) : list event := List.filter is_milestone t.

(** The output directory of a run of [main] started in the world [w]. *)
Definition run_outdir (args : Args) (w : world) : path :=
  if truthy (VStr (outdir args)) then [outdir args]
  else ["gitlab_export_" +:+ clock w].

(** The fields of a line, split at every [sep]: what a reader of the
    member summary sees. *)
Fixpoint split_on (sep : ascii) (s : string) : list string :=
  match s with
  | EmptyString => [""]
  | String c s' =>
      if Ascii.eqb c sep then "" :: split_on sep s'
      else match split_on sep s' with
           | [] => [String c ""]
           | f :: fs => String c f :: fs
           end
  end.

(** [c] occurs in [s]. *)
Fixpoint occurs (c : ascii) (s : string) : bool :=
  match s with
  | EmptyString => false
  | String c' s' => Ascii.eqb c' c || occurs c s'
  end.

(** The world [w] after the file [out] got the content [content] and the
    events [t] happened. *)
Definition written (out : path) (content : list row) (t : list event) (w : world) : world :=
  World (<[out := content]> (files w)) (dirs w) (clock w) (trace w ++ t).

(** What the body of an exporter's loop does for one listed entity, in
    terms of the entity's record: the row is appended to [out] and the
    count goes up, or the error is raised and the file stays as it is;
    no file is opened and no collection listed meanwhile. *)
Definition body_writes (out : path) (record : obj → outcome row)
    (body : obj → Z → M Z) : Prop :=
  ∀ x count w rows0, files w !! out = Some rows0 →
    ∃ t, body x count w
         = match record x with
           | Ret r => (Ret (count + 1), written out (rows0 ++ [r]) t w)
           | Raise e => (Raise e, written out rows0 t w)
           end
         ∧ milestones t = [].

(** A stage of a run: the file it writes and its header, the call that
    lists its collection, and its walk. *)
Record stage := Stage {
  st_file : path;
  st_header : list string;
  st_list : api_call;
  st_walk : list row * outcome unit;
}.

(** The stages of a run of [main] against the server [gl] into the
    directory [out], in the order of the calls in [main]. *)
Definition stages (gl : gitlab) (args : Args) (out : path) : list stage :=
  [ Stage (path_div out "projects.csv") projects_fields (ApiProjectsList false)
      (walk (project_record gl (members_scope args)) (gl_projects_list gl false)) ]
  ++ (if include_archived args
      then [ Stage (path_div out "archived_projects.csv") projects_fields
               (ApiProjectsList true)
               (walk (project_record gl (members_scope args)) (gl_projects_list gl true)) ]
      else [])
  ++ [ Stage (path_div out "groups.csv") groups_fields ApiGroupsList
         (walk (group_record gl (members_scope args)) (gl_groups_list gl));
       Stage (path_div out "users.csv") users_fields ApiUsersList
         (walk (user_record gl) (gl_users_list gl)) ].

(** The file system after a stage ran, to its end or to its error. *)
Definition stage_output (fs : gmap path (list row)) (st : stage) : gmap path (list row) :=
  <[st_file st := st_header st :: fst (st_walk st)]> fs.

Definition stage_marks (st : stage) : list event :=
  [EvOpen (st_file st); EvApi (st_list st)].

Definition completes (st : stage) : Prop := snd (st_walk st) = Ret tt.

(** The computation [c] performs the stage [st]. *)
Definition performs (c : M unit) (st : stage) : Prop :=
  ∀ w, ∃ t, c w = (snd (st_walk st),
                   written (st_file st) (st_header st :: fst (st_walk st)) t w)
            ∧ milestones t = stage_marks st.

(** [c1 ;; ... ;; cn ;; k] *)
Definition chain {A} (cs : list (M unit)) (k : M A) : M A :=
  foldr (λ c k, c ;; k) k cs.

Arguments written : simpl never.
Arguments dict_row : simpl never.
Arguments project_dict : simpl never.
Arguments group_dict : simpl never.
Arguments user_dict : simpl never.
Arguments export_projects : simpl never.
Arguments export_groups : simpl never.
Arguments export_users : simpl never.

(** ** Vocabulary of the further statements *)

(** A decimal digit. *)
Definition is_digit (c : ascii) : bool :=
  (48 <=? nat_of_ascii c)%nat && (nat_of_ascii c <=? 57)%nat.

(** The string [s] starts with a decimal digit. *)
Definition starts_with_digit (s : string) : Prop :=
  match s with
  | String c _ => is_digit c = true
  | EmptyString => False
  end.

(** The attribute is absent or [None]. *)
Definition unset (a : option pyval) : Prop := a = None ∨ a = Some VNone.

(** The pauses, the lines on stderr and the lines on stdout along a
    trace, in order. *)
Definition sleeps (t : list event) : list Q :=
  omap (λ e, match e with EvSleep seconds => Some seconds | _ => None end) t.
Definition stderr_lines (t : list event) : list string :=
  omap (λ e, match e with EvStderr line => Some line | _ => None end) t.
Definition stdout_lines (t : list event) : list string :=
  omap (λ e, match e with EvStdout line => Some line | _ => None end) t.

(** The progress notice of an exporter at the count [count]. *)
Definition progress_line (noun : string) (count : Z) : string :=
  "  ..." +:+ pretty count +:+ " " +:+ noun +:+ " processed".

(** The end of a turn of an exporter's loop, after the row of entity
    number [count] was written: the pause, if any, then the progress
    notice, if it is due. *)
Definition turn_end (sleep_s : Q) (every : Z) (noun : string) (count : Z) : list event :=
  (if positive_delay sleep_s then [EvSleep sleep_s] else [])
  ++ (if count mod every =? 0 then [EvStderr (progress_line noun count)] else []).

(** The events of one turn of the loop of [export_projects], for the
    listed project [p] when [count] projects were handled before: the
    calls made, up to the one that raises, and the end of the turn when
    the row was written. *)
Definition project_turn (gl : gitlab) (members_scope : string) (sleep_s : Q)
    (p : obj) (count : Z) : list event :=
  match p !! "id" with
  | None => []
  | Some p_id =>
    EvApi (ApiProjectsGet p_id) ::
    match gl_projects_get gl p_id with
    | Raise _ => []
    | Ret proj =>
      EvApi (ApiProjectMembers p_id (String.eqb members_scope "all")) ::
      match scope_members members_scope proj with
      | Raise _ => []
      | Ret members_iter =>
        match attrs proj !! "id" with
        | None => []
        | Some _ =>
          match format_members members_iter with
          | Raise _ => []
          | Ret _ => turn_end sleep_s 50 "projects" (count + 1)
          end
        end
      end
    end
  end.

(** The same for [export_groups]. *)
Definition group_turn (gl : gitlab) (members_scope : string) (sleep_s : Q)
    (g : obj) (count : Z) : list event :=
  match g !! "id" with
  | None => []
  | Some g_id =>
    EvApi (ApiGroupsGet g_id) ::
    match gl_groups_get gl g_id with
    | Raise _ => []
    | Ret grp =>
      EvApi (ApiGroupMembers g_id (String.eqb members_scope "all")) ::
      match scope_members members_scope grp with
      | Raise _ => []
      | Ret members_iter =>
        match attrs grp !! "id" with
        | None => []
        | Some _ =>
          match format_members members_iter with
          | Raise _ => []
          | Ret _ => turn_end sleep_s 100 "groups" (count + 1)
          end
        end
      end
    end
  end.

(** The same for [export_users]. *)
Definition user_turn (gl : gitlab) (sleep_s : Q) (u : obj) (count : Z) : list event :=
  match u !! "id" with
  | None => []
  | Some u_id =>
    EvApi (ApiUsersGet u_id) ::
    match gl_users_get gl u_id with
    | Raise _ => []
    | Ret user =>
      match user !! "id" with
      | None => []
      | Some _ => turn_end sleep_s 200 "users" (count + 1)
      end
    end
  end.

(** The body of an exporter's loop does, for each entity, what
    [body_writes] says, with exactly the events [turn] lists. *)
Definition body_emits (out : path) (record : obj → outcome row)
    (turn : obj → Z → list event) (body : obj → Z → M Z) : Prop :=
  ∀ x count w rows0, files w !! out = Some rows0 →
    body x count w
    = match record x with
      | Ret r => (Ret (count + 1), written out (rows0 ++ [r]) (turn x count) w)
      | Raise e => (Raise e, written out rows0 (turn x count) w)
      end.

(** The events of a loop over [it] that starts at the count [count]: the
    turns of the entities, up to the first whose record raises. *)
Fixpoint loop_events (record : obj → outcome row) (turn : obj → Z → list event)
    (it : pyiter) (count : Z) : list event :=
  match it with
  | Yield x rest =>
      turn x count
      ++ match record x with
         | Ret _ => loop_events record turn rest (count + 1)
         | Raise _ => []
         end
  | StopIteration | Raises _ => []
  end.

(** The events of an exporter: the announcement, the file opened, the
    list call, the loop, and the closing line when the walk completed. *)
Definition export_events (out : path) (msg1 msg2 : string) (c : api_call)
    (listing : outcome pyiter) (record : obj → outcome row)
    (turn : obj → Z → list event) : list event :=
  [EvStderr msg1; EvOpen out; EvApi c]
  ++ match listing with
     | Raise _ => []
     | Ret it =>
         loop_events record turn it 0
         ++ match snd (walk_iter record it) with
            | Ret _ => [EvStderr msg2]
            | Raise _ => []
            end
     end.

(** The events of each exporter. *)
Definition projects_events (gl : gitlab) (out : path) (archived : bool)
    (members_scope : string) (sleep_s : Q) : list event :=
  export_events out
    ("Exporting " +:+ (if archived then "archived projects" else "active projects")
     +:+ " -> " +:+ path_name out +:+ " ...")
    ("Projects export complete: " +:+ path_str out)
    (ApiProjectsList archived) (gl_projects_list gl archived)
    (project_record gl members_scope) (project_turn gl members_scope sleep_s).

Definition groups_events (gl : gitlab) (out : path) (members_scope : string)
    (sleep_s : Q) : list event :=
  export_events out
    ("Exporting groups -> " +:+ path_name out +:+ " ...")
    ("Groups export complete: " +:+ path_str out)
    ApiGroupsList (gl_groups_list gl)
    (group_record gl members_scope) (group_turn gl members_scope sleep_s).

Definition users_events (gl : gitlab) (out : path) (sleep_s : Q) : list event :=
  export_events out
    ("Exporting users -> " +:+ path_name out +:+ " ...")
    ("Users export complete: " +:+ path_str out)
    ApiUsersList (gl_users_list gl) (user_record gl) (user_turn gl sleep_s).

(** The calls an exporter makes for a listed entity whose row it writes. *)
Definition project_calls (members_scope : string) (p : obj) : list api_call :=
  match p !! "id" with
  | Some p_id =>
      [ApiProjectsGet p_id; ApiProjectMembers p_id (String.eqb members_scope "all")]
  | None => []
  end.

Definition group_calls (members_scope : string) (g : obj) : list api_call :=
  match g !! "id" with
  | Some g_id =>
      [ApiGroupsGet g_id; ApiGroupMembers g_id (String.eqb members_scope "all")]
  | None => []
  end.

Definition user_calls (u : obj) : list api_call :=
  match u !! "id" with
  | Some u_id => [ApiUsersGet u_id]
  | None => []
  end.

(** A turn that writes its row consists of the entity's calls and the
    end of the turn; a turn that raises has neither pause nor notice. *)
Definition turn_shape (record : obj → outcome row) (turn : obj → Z → list event)
    (calls : obj → list api_call) (sleep_s : Q) (every : Z) (noun : string) : Prop :=
  ∀ x count,
    match record x with
    | Ret _ => turn x count = (EvApi <$> calls x) ++ turn_end sleep_s every noun (count + 1)
    | Raise _ => sleeps (turn x count) = [] ∧ stderr_lines (turn x count) = []
    end.

(** The progress notices due while the entities number [count + 1] to
    [count + n] are handled. *)
Definition progress_lines (every : Z) (noun : string) (count : Z) (n : nat) : list string :=
  progress_line noun
    <$> List.filter (λ k, k mod every =? 0) (seqZ (count + 1) (Z.of_nat n)).

(** A computation that prints nothing on stdout. *)
Definition quiet {A} (c : M A) : Prop :=
  ∀ w, stdout_lines (trace (snd (c w))) = stdout_lines (trace w).

(** The cell [k] of the row [r] shows the text attribute [attr] of [o]:
    it is empty when the attribute is absent or [None], and otherwise
    what [csv] writes for the attribute's value. *)
Definition text_column (r : row) (o : obj) (k : nat) (attr : string) : Prop :=
  (unset (o !! attr) → r !! k = Some "")
  ∧ (∀ v, o !! attr = Some v → r !! k = Some (csv_cell v)).

(** The cell [k] of the row [r] shows the flag [attr] of [o]: it is
    [True] or [False], [False] when the attribute is absent or [None],
    and otherwise the truth value of the attribute's value. *)
Definition flag_column (r : row) (o : obj) (k : nat) (attr : string) : Prop :=
  (r !! k = Some "True" ∨ r !! k = Some "False")
  ∧ (unset (o !! attr) → r !! k = Some "False")
  ∧ (∀ v, o !! attr = Some v → r !! k = Some (if truthy v then "True" else "False")).

(** The exporters [main] runs against the server [gl] into the directory
    [out], in the order of the calls in [main]. *)
Definition exporters (gl : gitlab) (args : Args) (out : path) : list (M unit) :=
  [ export_projects gl (path_div out "projects.csv") false
      (members_scope args) (sleep args) ]
  ++ (if include_archived args
      then [ export_projects gl (path_div out "archived_projects.csv") true
               (members_scope args) (sleep args) ]
      else [])
  ++ [ export_groups gl (path_div out "groups.csv") (members_scope args) (sleep args);
       export_users gl (path_div out "users.csv") (sleep args) ].

(** ** Sample data for the examples *)

Definition alice : obj := {[ "username" := VStr "alice"; "access_level" := VInt 30 ]}.
Definition bob : obj := {[ "username" := VStr "bob"; "access_level" := VInt 40 ]}.
Definition bob_by_name : obj := {[ "name" := VStr "bob"; "access_level" := VInt 40 ]}.
Definition ghost : obj := {[ "id" := VInt 7; "access_level" := VInt 60 ]}.

(** A server with one project, [demo], and no group; with three users
    served in pages of two, with a fault after the first page of users,
    or with no user to show. *)
Definition demo : entity :=
  {| attrs := {[ "id" := VInt 1; "name" := VStr "demo"; "archived" := VBool false ]};
     members_all := Ret (iter_of [alice; bob]);
     members := Ret (iter_of [alice]) |}.

Definition listed (id : Z) : obj := {[ "id" := VInt id ]}.

Definition sample_server (projects users : outcome pyiter) : gitlab :=
  {| gl_auth := Ret tt;
     gl_projects_list := λ archived, if archived then Ret StopIteration else projects;
     gl_projects_get := λ id,
       if decide (id = VInt 1) then Ret demo
       else Raise (GitlabError "404 Project Not Found");
     gl_groups_list := Ret StopIteration;
     gl_groups_get := λ _, Raise (GitlabError "404 Group Not Found");
     gl_users_list := users;
     gl_users_get := λ id, Ret {[ "id" := id; "state" := VStr "active" ]} |}.

Definition sample_gl : gitlab :=
  sample_server (paged [[listed 1]] None) (paged [[listed 5; listed 6]; [listed 7]] None).

Definition faulty_gl : gitlab :=
  sample_server (paged [[listed 1]] None)
    (paged [[listed 5; listed 6]] (Some (GitlabError "429 Too Many Requests"))).

Definition unprivileged_gl : gitlab :=
  sample_server (paged [[listed 1]] None) (paged [] None).

(** A server that lists a project it no longer has. *)
Definition stale_gl : gitlab :=
  sample_server (paged [[listed 1; listed 2]] None) (paged [] None).

(** A server that lists three users and refuses the detail of the second. *)
Definition guarded_gl : gitlab :=
  {| gl_auth := Ret tt;
     gl_projects_list := λ _, Ret StopIteration;
     gl_projects_get := λ _, Raise (GitlabError "404 Project Not Found");
     gl_groups_list := Ret StopIteration;
     gl_groups_get := λ _, Raise (GitlabError "404 Group Not Found");
     gl_users_list := paged [[listed 5; listed 6; listed 7]] None;
     gl_users_get := λ id,
       if decide (id = VInt 6) then Raise (GitlabError "403 Forbidden")
       else Ret {[ "id" := id; "state" := VStr "active" ]} |}.

(** A server that refuses the token. *)
Definition locked_gl : gitlab :=
  {| gl_auth := Raise (GitlabError "401 Unauthorized");
     gl_projects_list := λ _, Raise (GitlabError "401 Unauthorized");
     gl_projects_get := λ _, Raise (GitlabError "401 Unauthorized");
     gl_groups_list := Raise (GitlabError "401 Unauthorized");
     gl_groups_get := λ _, Raise (GitlabError "401 Unauthorized");
     gl_users_list := Raise (GitlabError "401 Unauthorized");
     gl_users_get := λ _, Raise (GitlabError "401 Unauthorized") |}.

Definition sample_args : Args :=
  {| url := "https://gitlab.example.com"; token := "glpat-x"; outdir := "out";
     include_archived := false; members_scope := "direct";
     no_ssl_verify := false; sleep := 0 |}.

Definition sample_world : world := World ∅ ∅ "20240101_000000_UTC" [].

Definition user_row (id : string) : row :=
  [id; ""; ""; "active"; "False"; "False"; "False"; ""; ""; ""].

Definition demo_row : row :=
  ["1"; "demo"; ""; ""; ""; ""; "False"; "alice:Developer"].

(** * Theorems *)

(** ** The order of strings and [sorted] *)

Lemma sorted_Permutation (l : list string) : sorted l ≡ₚ l.
Proof. apply merge_sort_Permutation. Qed.

Lemma sorted_StronglySorted (l : list string) : StronglySorted String.le (sorted l).
Proof. apply (StronglySorted_merge_sort String.le). Qed.

(** The sorted list of a collection does not depend on the order in which
    the collection is enumerated. *)
Lemma sorted_perm_eq (l1 l2 : list string) : l1 ≡ₚ l2 → sorted l1 = sorted l2.
Proof.
  intros Hp. apply (StronglySorted_unique String.le); auto using sorted_StronglySorted.
  by rewrite !sorted_Permutation.
Qed.

Lemma elem_of_sorted (l : list string) (t : string) : t ∈ sorted l ↔ t ∈ l.
Proof. by rewrite sorted_Permutation. Qed.

(** ** Member Normalizer *)

Lemma members_loop_iter_of (ms : list obj) (acc : list string) :
  members_loop (iter_of ms) acc = Ret (acc ++ (member_part <$> ms)).
Proof.
  revert acc. induction ms as [|m ms IH]; intros acc; simpl.
  - by rewrite app_nil_r.
  - rewrite IH. by rewrite <- app_assoc.
Qed.

Lemma format_members_iter_of (ms : list obj) :
  format_members (iter_of ms) = Ret (join ";" (summary_tokens (member_part <$> ms))).
Proof. unfold format_members. by rewrite members_loop_iter_of. Qed.

Lemma elem_of_summary_tokens (parts : list string) (t : string) :
  t ∈ summary_tokens parts ↔ t ∈ parts.
Proof.
  unfold summary_tokens, py_set.
  by rewrite elem_of_sorted, elem_of_elements, elem_of_list_to_set.
Qed.

Lemma NoDup_summary_tokens (parts : list string) : NoDup (summary_tokens parts).
Proof.
  unfold summary_tokens. rewrite sorted_Permutation. apply NoDup_elements.
Qed.

Lemma summary_tokens_sorted (parts : list string) :
  StronglySorted String.le (summary_tokens parts).
Proof. apply sorted_StronglySorted. Qed.

(** Whatever order the set is enumerated in, sorting gives the same
    tokens: the summary does not rest on the iteration order of the set. *)
Lemma summary_tokens_any_enumeration (parts enum : list string) :
  NoDup enum → (∀ t, t ∈ enum ↔ t ∈ parts) → sorted enum = summary_tokens parts.
Proof.
  intros Hnd Hin. unfold summary_tokens. apply sorted_perm_eq.
  apply NoDup_Permutation; [done | apply NoDup_elements |].
  intros t. rewrite Hin. unfold py_set.
  by rewrite elem_of_elements, elem_of_list_to_set.
Qed.

Lemma summary_tokens_set_eq (l1 l2 : list string) :
  (∀ t, t ∈ l1 ↔ t ∈ l2) → summary_tokens l1 = summary_tokens l2.
Proof.
  intros Heq. unfold summary_tokens at 1. apply summary_tokens_any_enumeration.
  - apply NoDup_elements.
  - intros t. unfold py_set. by rewrite elem_of_elements, elem_of_list_to_set.
Qed.

(** C1. Two finite sequences of membership entries whose derived
    identity:role tokens form the same set get the same member summary
    from [format_members], whatever the order and multiplicity of the
    entries: both calls return, and return the same string. *)
Theorem format_members_set_equal (ms1 ms2 : list obj) :
  (∀ t, t ∈ member_part <$> ms1 ↔ t ∈ member_part <$> ms2) →
  ∃ s, format_members (iter_of ms1) = Ret s ∧ format_members (iter_of ms2) = Ret s.
Proof.
  intros Heq. eexists. rewrite !format_members_iter_of. split; [done |].
  by rewrite (summary_tokens_set_eq _ _ Heq).
Qed.

Lemma format_members_set_equal_witness :
  ∃ s, format_members (iter_of [bob; alice; bob_by_name; alice]) = Ret s
       ∧ format_members (iter_of [alice; bob]) = Ret s.
Proof.
  apply (format_members_set_equal [bob; alice; bob_by_name; alice] [alice; bob]).
  intros t. vm_compute fmap. rewrite !elem_of_cons, !elem_of_nil. tauto.
Defined.

(** ** Access-Level Resolver *)

Lemma ACCESS_LEVELS_unknown (n : Z) :
  n ∉ [10; 20; 30; 40; 50] → ACCESS_LEVELS !! n = None.
Proof.
  intros Hn. rewrite !not_elem_of_cons in Hn.
  destruct Hn as (? & ? & ? & ? & ? & _).
  unfold ACCESS_LEVELS. by rewrite !lookup_insert_ne, lookup_empty.
Qed.

(** C2. The resolver maps 10, 20, 30, 40 and 50 to Guest, Reporter,
    Developer, Maintainer and Owner, any other integer to its decimal
    string, and [None] to the empty string. It is a total function: it
    returns a string on every input and raises nothing. *)
Theorem access_level_name_spec :
  access_level_name (VInt 10) = "Guest"
  ∧ access_level_name (VInt 20) = "Reporter"
  ∧ access_level_name (VInt 30) = "Developer"
  ∧ access_level_name (VInt 40) = "Maintainer"
  ∧ access_level_name (VInt 50) = "Owner"
  ∧ (∀ n : Z, n ∉ [10; 20; 30; 40; 50] → access_level_name (VInt n) = pretty n)
  ∧ access_level_name VNone = "".
Proof.
  repeat split; try reflexivity.
  intros n Hn. unfold access_level_name, ACCESS_LEVELS_get. simpl.
  by rewrite (ACCESS_LEVELS_unknown n Hn).
Qed.

Lemma access_level_name_spec_witness :
  access_level_name (VInt 60) = "60" ∧ access_level_name (VInt (-3)) = "-3"
  ∧ access_level_name (VInt 0) = "0".
Proof.
  pose proof access_level_name_spec as (_ & _ & _ & _ & _ & Hother & _).
  split; [| split].
  - rewrite (Hother 60); [reflexivity | rewrite !not_elem_of_cons, elem_of_nil; intuition lia].
  - rewrite (Hother (-3)); [reflexivity | rewrite !not_elem_of_cons, elem_of_nil; intuition lia].
  - rewrite (Hother 0); [reflexivity | rewrite !not_elem_of_cons, elem_of_nil; intuition lia].
Defined.

(** ** Identity tokens *)

Lemma blank_or_empty (m : obj) (attr : string) :
  blank (m !! attr) → py_or (safe_get m attr (VStr "")) (VStr "") = VStr "".
Proof. unfold safe_get. by intros [-> | [-> | ->]]. Qed.

Lemma named_or_empty (m : obj) (attr s : string) :
  m !! attr = Some (VStr s) → s ≠ "" →
  py_or (safe_get m attr (VStr "")) (VStr "") = VStr s ∧ truthy (VStr s) = true.
Proof.
  intros Hm Hs. unfold safe_get, py_or. rewrite Hm. simpl.
  apply String.eqb_neq in Hs. by rewrite Hs.
Qed.

(** C3. The token of a membership entry is its identity, a colon and its
    role name, where the identity is the username when that is a
    non-empty string, else the name when that is a non-empty string, else
    [user_id_] followed by the id. *)
Theorem member_part_identity (m : obj) :
  let role := access_level_name (safe_get m "access_level" VNone) in
  (∀ u, m !! "username" = Some (VStr u) → u ≠ "" →
        member_part m = u +:+ ":" +:+ role)
  ∧ (∀ n, blank (m !! "username") → m !! "name" = Some (VStr n) → n ≠ "" →
          member_part m = n +:+ ":" +:+ role)
  ∧ (∀ id, blank (m !! "username") → blank (m !! "name") → m !! "id" = Some id →
           member_part m = ("user_id_" +:+ py_str id) +:+ ":" +:+ role).
Proof.
  intros role. unfold member_part, member_ident. repeat split.
  - intros u Hu Hne. destruct (named_or_empty m "username" u Hu Hne) as [-> Ht].
    by rewrite !Ht.
  - intros n Hu Hn Hne. rewrite (blank_or_empty m "username" Hu).
    destruct (named_or_empty m "name" n Hn Hne) as [-> Ht]. simpl in Ht |- *.
    by rewrite !Ht.
  - intros id Hu Hn Hid. rewrite (blank_or_empty m "username" Hu).
    rewrite (blank_or_empty m "name" Hn). simpl. unfold safe_get at 1.
    by rewrite Hid.
Qed.

Lemma member_part_identity_witness :
  member_part alice = "alice:Developer"
  ∧ member_part bob_by_name = "bob:Maintainer"
  ∧ member_part ghost = "user_id_7:60".
Proof.
  split; [| split].
  - apply (proj1 (member_part_identity alice) "alice"); [reflexivity | discriminate].
  - apply (proj1 (proj2 (member_part_identity bob_by_name)) "bob");
      [by left | reflexivity | discriminate].
  - apply (proj2 (proj2 (member_part_identity ghost)) (VInt 7));
      [by left | by left | reflexivity].
Defined.

(** C9. An entry without username, name and id gets the identity
    [user_id_], with nothing after the underscore; an entry without
    access level gets an empty role, so its token ends in the colon. *)
Theorem member_part_missing_fields :
  (∀ m : obj, blank (m !! "username") → blank (m !! "name") → m !! "id" = None →
     member_ident m = VStr "user_id_"
     ∧ member_part m
       = "user_id_" +:+ ":" +:+ access_level_name (safe_get m "access_level" VNone))
  ∧ (∀ m : obj, m !! "access_level" = None ∨ m !! "access_level" = Some VNone →
       member_part m = py_str (member_ident m) +:+ ":")
  ∧ member_part {[ "username" := VStr "alice" ]} = "alice:"
  ∧ member_part ∅ = "user_id_:".
Proof.
  split; [| split; [| split; reflexivity]].
  - intros m Hu Hn Hid.
    assert (Hident : member_ident m = VStr "user_id_").
    { unfold member_ident.
      rewrite (blank_or_empty m "username" Hu), (blank_or_empty m "name" Hn).
      simpl. unfold safe_get. by rewrite Hid. }
    split; [done |]. unfold member_part. by rewrite Hident.
  - intros m Hlevel. unfold member_part, safe_get at 1.
    by destruct Hlevel as [-> | ->].
Qed.

Lemma member_part_missing_fields_witness :
  member_part {[ "access_level" := VInt 10 ]} = "user_id_:Guest"
  ∧ member_part {[ "username" := VStr "bob" ]} = "bob:".
Proof.
  pose proof member_part_missing_fields as (Hid & Hrole & _).
  split.
  - destruct (Hid {[ "access_level" := VInt 10 ]}) as [_ ->];
      [by left | by left | reflexivity | reflexivity].
  - rewrite (Hrole {[ "username" := VStr "bob" ]}); [reflexivity | left; reflexivity].
Defined.

(** ** Reading a summary back *)

Lemma split_on_whole (sep : ascii) (t : string) :
  occurs sep t = false → split_on sep t = [t].
Proof.
  induction t as [|c t IH]; simpl; [done |].
  intros [Hc Ht]%orb_false_elim. rewrite Hc. by rewrite (IH Ht).
Qed.

Lemma split_on_field (sep : ascii) (t rest : string) :
  occurs sep t = false →
  split_on sep (t +:+ String sep rest) = t :: split_on sep rest.
Proof.
  induction t as [|c t IH]; simpl.
  - intros _. by rewrite Ascii.eqb_refl.
  - intros [Hc Ht]%orb_false_elim. rewrite Hc. by rewrite (IH Ht).
Qed.

(** A non-empty list of fields without the separator is read back from
    its joined line. *)
Lemma split_on_join (sep : ascii) (l : list string) :
  l ≠ [] → Forall (λ t, occurs sep t = false) l →
  split_on sep (join (String sep "") l) = l.
Proof.
  intros Hne Hl. induction Hl as [|t l Ht Hl IH]; [done |].
  destruct l as [|t' l].
  - simpl. by apply split_on_whole.
  - change (join (String sep "") (t :: t' :: l))
      with (t +:+ String sep (join (String sep "") (t' :: l))).
    rewrite split_on_field by done. by rewrite IH.
Qed.

(** C4. When two entries of the input, at different positions, derive
    the same token, the summary holds that token exactly once: once among
    the tokens that are joined, and, when no token contains a semicolon,
    once among the fields of the returned string. *)
Theorem duplicate_tokens_collapse (ms : list obj) (i j : nat) (a b : obj) :
  i ≠ j → ms !! i = Some a → ms !! j = Some b → member_part a = member_part b →
  let tokens := summary_tokens (member_part <$> ms) in
  format_members (iter_of ms) = Ret (join ";" tokens)
  ∧ count_occ String.string_dec tokens (member_part a) = 1%nat
  ∧ (Forall (λ m, occurs ";" (member_part m) = false) ms →
     count_occ String.string_dec (split_on ";" (join ";" tokens)) (member_part a) = 1%nat).
Proof.
  intros _ Ha _ _ tokens.
  assert (Hin : member_part a ∈ tokens).
  { apply elem_of_summary_tokens, list_elem_of_fmap. exists a. split; [done |].
    by eapply list_elem_of_lookup_2. }
  assert (Hcount : count_occ String.string_dec tokens (member_part a) = 1%nat).
  { apply NoDup_count_occ'; [apply NoDup_ListNoDup, NoDup_summary_tokens | by apply list_elem_of_In]. }
  split; [apply format_members_iter_of |]. split; [done |].
  intros Hsemi. rewrite split_on_join; [done | |].
  - intros Hnil. rewrite Hnil in Hin. by apply elem_of_nil in Hin.
  - apply Forall_forall. intros t [m [-> Hm]]%elem_of_summary_tokens%list_elem_of_fmap.
    by eapply (proj1 (Forall_forall _ _) Hsemi).
Qed.

Lemma duplicate_tokens_collapse_witness :
  format_members (iter_of [bob; alice; bob_by_name]) = Ret "alice:Developer;bob:Maintainer"
  ∧ count_occ String.string_dec (split_on ";" "alice:Developer;bob:Maintainer") "bob:Maintainer"
    = 1%nat.
Proof.
  assert (Hdup : member_part bob = member_part bob_by_name) by reflexivity.
  destruct (duplicate_tokens_collapse [bob; alice; bob_by_name] 0 2 bob bob_by_name
              ltac:(lia) eq_refl eq_refl Hdup) as (Hfmt & _ & Hfields).
  split; [exact Hfmt |].
  apply Hfields. repeat constructor.
Defined.

(** ** Walks *)

Lemma written_same (out : path) (rows0 : list row) (w : world) :
  files w !! out = Some rows0 → written out rows0 [] w = w.
Proof.
  intros Hf. destruct w as [fs ds ck tr]. unfold written. simpl in *.
  by rewrite insert_id, app_nil_r.
Qed.

Lemma written_written (out : path) (c1 c2 : list row) (t1 t2 : list event) (w : world) :
  written out c2 t2 (written out c1 t1 w) = written out c2 (t1 ++ t2) w.
Proof. unfold written. simpl. by rewrite insert_insert_eq, app_assoc. Qed.

Lemma milestones_app (t1 t2 : list event) :
  milestones (t1 ++ t2) = milestones t1 ++ milestones t2.
Proof. apply List.filter_app. Qed.

(** A loop whose body writes one record per entity writes the rows of the
    walk, then ends as the walk ends. *)
Lemma for_in_walk (out : path) (record : obj → outcome row) (body : obj → Z → M Z) :
  body_writes out record body →
  ∀ it count w rows0, files w !! out = Some rows0 →
    ∃ t n, for_in it body count w
           = (match snd (walk_iter record it) with Ret _ => Ret n | Raise e => Raise e end,
              written out (rows0 ++ fst (walk_iter record it)) t w)
           ∧ milestones t = [].
Proof.
  intros Hbody it. induction it as [|x rest IH|e]; intros count w rows0 Hf; simpl.
  - exists [], count. by rewrite app_nil_r, written_same.
  - destruct (Hbody x count w rows0 Hf) as (t & Hrun & Ht).
    unfold bind. rewrite Hrun. destruct (record x) as [r|e].
    + destruct (IH (count + 1) (written out (rows0 ++ [r]) t w) (rows0 ++ [r]))
        as (t' & n & Hrest & Ht').
      { simpl. apply lookup_insert_eq. }
      rewrite Hrest, written_written. destruct (walk_iter record rest) as [rows res]. simpl.
      exists (t ++ t'), n. rewrite <- app_assoc. split; [done |].
      by rewrite milestones_app, Ht, Ht'.
    + exists t, count. simpl. by rewrite app_nil_r.
  - exists [], count. by rewrite app_nil_r, written_same.
Qed.

Lemma written_events (out : path) (rows0 : list row) (t : list event) (w : world) :
  files w !! out = Some rows0 →
  written out rows0 t w = World (files w) (dirs w) (clock w) (trace w ++ t).
Proof. intros Hf. unfold written. by rewrite insert_id. Qed.

Lemma written_append (out : path) (rows0 : list row) (r : row) (t : list event) (w : world) :
  files w !! out = Some rows0 →
  written out (rows0 ++ [r]) t w
  = World (alter (λ rows, rows ++ [r]) out (files w)) (dirs w) (clock w) (trace w ++ t).
Proof.
  intros Hf. unfold written. f_equal. apply map_eq. intros p.
  destruct (decide (out = p)) as [<- | Hne].
  - by rewrite lookup_insert_eq, lookup_alter_eq, Hf.
  - by rewrite lookup_insert_ne, lookup_alter_ne.
Qed.

(** Unfolding the effects of straight-line code. *)
Ltac run :=
  repeat (unfold bind, ret, raise, lift, call, emit, eprint, print, time_sleep,
            sys_exit, getattr, iter_all, writerow, writeheader, write_row, open_w,
            mkdir, utc_stamp, users_get, users_list, groups_get, groups_list,
            projects_get, projects_list, members_all_list, members_list;
          simpl).

(** Closing a goal [∃ t, run = expected t ∧ milestones t = []] once the
    run is an explicit world; [Hf] is the content of the file before. *)
Ltac close_run Hf :=
  first
  [ exists []; split; [by rewrite (written_same _ _ _ Hf) | reflexivity]
  | eexists; split;
    [ first [ rewrite (written_events _ _ _ _ Hf)
            | rewrite (written_append _ _ _ _ _ Hf) ];
      rewrite <- ?app_assoc; reflexivity
    | reflexivity ] ].

Lemma users_body_writes (gl : gitlab) (out : path) (sleep_s : Q) :
  body_writes out (user_record gl)
    (λ u count,
       let count := count + 1 in
       let* u_id := getattr u "id" in
       let* user := users_get gl u_id in
       let* user_id := getattr user "id" in
       writerow {| dw_file := out; fieldnames := users_fields |} (user_dict user_id user) ;;
       (if positive_delay sleep_s then time_sleep sleep_s else ret tt) ;;
       (if count mod 200 =? 0
        then eprint ("  ..." +:+ pretty count +:+ " users processed")
        else ret tt) ;;
       ret count).
Proof.
  intros u count w rows0 Hf. unfold user_record.
  destruct (u !! "id") as [u_id|] eqn:Hu; run; rewrite Hu; [| close_run Hf].
  run. destruct (gl_users_get gl u_id) as [user|e]; run; [| close_run Hf].
  destruct (user !! "id") as [user_id|] eqn:Hid; run; [| close_run Hf].
  destruct (positive_delay sleep_s), ((count + 1) mod 200 =? 0); run; close_run Hf.
Qed.

(** The common shape of the three exporters: announce, open and
    truncate, write the header, list the collection, walk it, report. *)
Lemma exporter_run (out : path) (header : list string) (msg1 msg2 : string)
    (c : api_call) (listing : outcome pyiter) (record : obj → outcome row)
    (body : obj → Z → M Z) :
  body_writes out record body →
  ∀ w, ∃ t,
    (eprint msg1 ;;
     open_w out ;;
     writeheader {| dw_file := out; fieldnames := header |} ;;
     let* items := call c listing in
     for_in items body 0 ;;
     eprint msg2) w
    = (snd (walk record listing), written out (header :: fst (walk record listing)) t w)
    ∧ milestones t = EvOpen out :: milestones [EvApi c].
Proof.
  intros Hbody w. destruct listing as [it|e]; run.
  2: { unfold written. simpl. rewrite alter_insert_eq.
       eexists. split; [rewrite <- ?app_assoc; reflexivity | reflexivity]. }
  match goal with |- context [for_in it body 0 ?w1] =>
    destruct (for_in_walk out record body Hbody it 0 w1 [header]) as (t & n & Hrun & Ht);
    [simpl; by rewrite lookup_alter_eq, lookup_insert_eq | rewrite Hrun]
  end.
  unfold written. simpl. rewrite insert_alter_eq, insert_insert_eq.
  destruct (walk_iter record it) as [rows [[]|e]]; simpl.
  - eexists. split; [rewrite <- ?app_assoc; reflexivity |].
    rewrite !milestones_app, Ht. simpl. by rewrite app_nil_r.
  - eexists. split; [rewrite <- ?app_assoc; reflexivity |].
    rewrite !milestones_app, Ht. simpl. by rewrite app_nil_r.
Qed.

Lemma projects_body_writes (gl : gitlab) (out : path) (members_scope : string) (sleep_s : Q) :
  body_writes out (project_record gl members_scope)
    (λ p count,
       let count := count + 1 in
       let* p_id := getattr p "id" in
       let* proj := projects_get gl p_id in
       let* members_iter :=
         if String.eqb members_scope "all"
         then iter_all (members_all_list (ApiProjectMembers p_id true) proj) tt
         else iter_all (members_list (ApiProjectMembers p_id false) proj) tt in
       let* proj_id := getattr (attrs proj) "id" in
       let* members_summary := lift (format_members members_iter) in
       writerow {| dw_file := out; fieldnames := projects_fields |}
         (project_dict proj_id (attrs proj) members_summary) ;;
       (if positive_delay sleep_s then time_sleep sleep_s else ret tt) ;;
       (if count mod 50 =? 0
        then eprint ("  ..." +:+ pretty count +:+ " projects processed")
        else ret tt) ;;
       ret count).
Proof.
  intros p count w rows0 Hf. unfold project_record, scope_members.
  destruct (p !! "id") as [p_id|] eqn:Hp; run; rewrite Hp; [| close_run Hf].
  run. destruct (gl_projects_get gl p_id) as [proj|e]; run; [| close_run Hf].
  destruct (String.eqb members_scope "all"); run.
  all: match goal with |- context [match ?l with Ret _ => _ | Raise _ => _ end] =>
         destruct l as [members_iter|e] end; run; [| close_run Hf].
  all: destruct (attrs proj !! "id") as [proj_id|] eqn:Hid; run; [| close_run Hf].
  all: destruct (format_members members_iter) as [summary|e]; run; [| close_run Hf].
  all: destruct (positive_delay sleep_s), ((count + 1) mod 50 =? 0); run; close_run Hf.
Qed.

Lemma groups_body_writes (gl : gitlab) (out : path) (members_scope : string) (sleep_s : Q) :
  body_writes out (group_record gl members_scope)
    (λ g count,
       let count := count + 1 in
       let* g_id := getattr g "id" in
       let* grp := groups_get gl g_id in
       let* members_iter :=
         if String.eqb members_scope "all"
         then iter_all (members_all_list (ApiGroupMembers g_id true) grp) tt
         else iter_all (members_list (ApiGroupMembers g_id false) grp) tt in
       let* grp_id := getattr (attrs grp) "id" in
       let* members_summary := lift (format_members members_iter) in
       writerow {| dw_file := out; fieldnames := groups_fields |}
         (group_dict grp_id (attrs grp) members_summary) ;;
       (if positive_delay sleep_s then time_sleep sleep_s else ret tt) ;;
       (if count mod 100 =? 0
        then eprint ("  ..." +:+ pretty count +:+ " groups processed")
        else ret tt) ;;
       ret count).
Proof.
  intros g count w rows0 Hf. unfold group_record, scope_members.
  destruct (g !! "id") as [g_id|] eqn:Hg; run; rewrite Hg; [| close_run Hf].
  run. destruct (gl_groups_get gl g_id) as [grp|e]; run; [| close_run Hf].
  destruct (String.eqb members_scope "all"); run.
  all: match goal with |- context [match ?l with Ret _ => _ | Raise _ => _ end] =>
         destruct l as [members_iter|e] end; run; [| close_run Hf].
  all: destruct (attrs grp !! "id") as [grp_id|] eqn:Hid; run; [| close_run Hf].
  all: destruct (format_members members_iter) as [summary|e]; run; [| close_run Hf].
  all: destruct (positive_delay sleep_s), ((count + 1) mod 100 =? 0); run; close_run Hf.
Qed.

(** ** What an exporter leaves behind

    Each exporter ends as its walk ends, and leaves the world with its
    file holding the header and the rows of the walk; it opens its file,
    then lists its collection, and opens or lists nothing else. *)

Lemma export_projects_run (gl : gitlab) (out : path) (archived : bool)
    (members_scope : string) (sleep_s : Q) (w : world) :
  let run := walk (project_record gl members_scope) (gl_projects_list gl archived) in
  ∃ t, export_projects gl out archived members_scope sleep_s w
       = (snd run, written out (projects_fields :: fst run) t w)
       ∧ milestones t = [EvOpen out; EvApi (ApiProjectsList archived)].
Proof.
  intros run. unfold export_projects.
  exact (exporter_run out projects_fields _ _ (ApiProjectsList archived) _ _ _
           (projects_body_writes gl out members_scope sleep_s) w).
Qed.

Lemma export_groups_run (gl : gitlab) (out : path) (members_scope : string)
    (sleep_s : Q) (w : world) :
  let run := walk (group_record gl members_scope) (gl_groups_list gl) in
  ∃ t, export_groups gl out members_scope sleep_s w
       = (snd run, written out (groups_fields :: fst run) t w)
       ∧ milestones t = [EvOpen out; EvApi ApiGroupsList].
Proof.
  intros run. unfold export_groups.
  exact (exporter_run out groups_fields _ _ ApiGroupsList _ _ _
           (groups_body_writes gl out members_scope sleep_s) w).
Qed.

Lemma export_users_run (gl : gitlab) (out : path) (sleep_s : Q) (w : world) :
  let run := walk (user_record gl) (gl_users_list gl) in
  ∃ t, export_users gl out sleep_s w
       = (snd run, written out (users_fields :: fst run) t w)
       ∧ milestones t = [EvOpen out; EvApi ApiUsersList].
Proof.
  intros run. unfold export_users.
  exact (exporter_run out users_fields _ _ ApiUsersList _ _ _
           (users_body_writes gl out sleep_s) w).
Qed.

(** ** Sequences of stages *)

Lemma written_stage (st : stage) (t : list event) (w : world) :
  written (st_file st) (st_header st :: fst (st_walk st)) t w
  = World (stage_output (files w) st) (dirs w) (clock w) (trace w ++ t).
Proof. reflexivity. Qed.

(** When every stage completes, the continuation runs in the world that
    holds every stage's file. *)
Lemma chain_completes {A} (cs : list (M unit)) (sts : list stage) (k : M A) :
  Forall2 performs cs sts → Forall completes sts →
  ∀ w, ∃ t, chain cs k w
            = k (World (foldl stage_output (files w) sts) (dirs w) (clock w) (trace w ++ t))
            ∧ milestones t = concat (stage_marks <$> sts).
Proof.
  induction 1 as [|c st cs sts Hc _ IH]; intros Hok w; simpl.
  - exists []. by rewrite app_nil_r; destruct w.
  - apply Forall_cons in Hok as [Hst Hok].
    destruct (Hc w) as (t1 & Hrun & Ht1). unfold bind at 1. rewrite Hrun, Hst.
    rewrite written_stage.
    destruct (IH Hok (World (stage_output (files w) st) (dirs w) (clock w) (trace w ++ t1)))
      as (t2 & Hrest & Ht2).
    exists (t1 ++ t2). fold (chain cs k). rewrite Hrest. simpl.
    rewrite <- app_assoc. split; [done |].
    by rewrite milestones_app, Ht1, Ht2.
Qed.

(** When a stage raises after the stages before it completed, the chain
    ends there with that error: the later stages and the continuation do
    not run, and the files written so far stay. *)
Lemma chain_aborts {A} (cs : list (M unit)) (sts : list stage) (k : M A)
    (before after : list stage) (st : stage) (e : exn) :
  Forall2 performs cs sts → sts = before ++ st :: after →
  Forall completes before → snd (st_walk st) = Raise e →
  ∀ w, ∃ t, chain cs k w
            = (Raise e, World (foldl stage_output (files w) (before ++ [st]))
                          (dirs w) (clock w) (trace w ++ t))
            ∧ milestones t = concat (stage_marks <$> before ++ [st]).
Proof.
  intros Hcs. revert before. induction Hcs as [|c s cs sts Hc _ IH];
    intros before Hsts Hok He w.
  - by destruct before.
  - destruct (Hc w) as (t1 & Hrun & Ht1). simpl. unfold bind at 1. rewrite Hrun.
    rewrite written_stage. destruct before as [|b before]; simplify_eq/=.
    + rewrite He. exists t1. by rewrite Ht1.
    + apply Forall_cons in Hok as [Hb Hok]. rewrite Hb.
      destruct (IH before eq_refl Hok He
                  (World (stage_output (files w) b) (dirs w) (clock w) (trace w ++ t1)))
        as (t2 & Hrest & Ht2).
      exists (t1 ++ t2). fold (chain cs k). rewrite Hrest. simpl.
      rewrite <- app_assoc. split; [done |].
      by rewrite milestones_app, Ht1, Ht2.
Qed.

(** Either every stage completes, or there is a first one that raises. *)
Lemma first_failure (sts : list stage) :
  Forall completes sts
  ∨ ∃ before st after e, sts = before ++ st :: after
                         ∧ Forall completes before ∧ snd (st_walk st) = Raise e.
Proof.
  induction sts as [|s sts IH]; [by left |].
  destruct (snd (st_walk s)) as [[]|e] eqn:Hs.
  - destruct IH as [Hok | (before & st & after & e & -> & Hok & He)].
    + left. by constructor.
    + right. exists (s :: before), st, after, e. repeat split; [|done]. by constructor.
  - right. exists [], s, sts, e. by repeat split.
Qed.

(** ** The orchestrator as a sequence of stages *)

Lemma nonempty_truthy (s : string) : s ≠ "" → truthy (VStr s) = true.
Proof. intros Hs. simpl. apply String.eqb_neq in Hs. by rewrite Hs. Qed.

Lemma performs_stages (gl : gitlab) (args : Args) (out : path) :
  Forall2 performs
    ([ export_projects gl (path_div out "projects.csv") false
         (members_scope args) (sleep args) ]
     ++ (if include_archived args
         then [ export_projects gl (path_div out "archived_projects.csv") true
                  (members_scope args) (sleep args) ]
         else [])
     ++ [ export_groups gl (path_div out "groups.csv") (members_scope args) (sleep args);
          export_users gl (path_div out "users.csv") (sleep args) ])
    (stages gl args out).
Proof.
  unfold stages. destruct (include_archived args); simpl; repeat constructor; intros w.
  all: first [ apply export_projects_run | apply export_groups_run | apply export_users_run ].
Qed.

(** With a URL, a token and a token the server accepts, [main] creates
    the output directory, connects, and runs its stages in a row, then
    prints the directory. *)
Lemma main_chain (net : network) (args : Args) (w : world) :
  url args ≠ "" → token args ≠ "" →
  let gl := net (url args) (token args) (negb (no_ssl_verify args)) in
  let out := run_outdir args w in
  gl_auth gl = Ret tt →
  ∃ cs t0,
    Forall2 performs cs (stages gl args out)
    ∧ main net args w
      = chain cs (print (path_str out))
          (World (files w) ({[out]} ∪ dirs w) (clock w) (trace w ++ t0))
    ∧ milestones t0 = [].
Proof.
  intros Hurl Htoken gl out Hauth.
  eexists _, [EvMkdir out; EvStderr _; EvApi ApiAuth].
  split; [apply (performs_stages gl args out) |]. split; [| reflexivity].
  unfold main. rewrite (nonempty_truthy _ Hurl), (nonempty_truthy _ Htoken).
  simpl negb. cbv iota. subst out. unfold run_outdir, make_gitlab_client.
  fold gl. destruct (truthy (VStr (outdir args))); run; rewrite Hauth; run.
  all: rewrite <- !app_assoc; simpl.
  all: destruct (include_archived args); reflexivity.
Qed.

Lemma main_completes (net : network) (args : Args) (w : world) :
  url args ≠ "" → token args ≠ "" →
  let gl := net (url args) (token args) (negb (no_ssl_verify args)) in
  let out := run_outdir args w in
  gl_auth gl = Ret tt → Forall completes (stages gl args out) →
  ∃ t, main net args w
       = (Ret tt, World (foldl stage_output (files w) (stages gl args out))
                    ({[out]} ∪ dirs w) (clock w)
                    (trace w ++ t ++ [EvStdout (path_str out)]))
       ∧ milestones t = concat (stage_marks <$> stages gl args out).
Proof.
  intros Hurl Htoken gl out Hauth Hok.
  destruct (main_chain net args w Hurl Htoken Hauth) as (cs & t0 & Hcs & Hmain & Ht0).
  destruct (chain_completes cs _ (print (path_str out)) Hcs Hok
              (World (files w) ({[out]} ∪ dirs w) (clock w) (trace w ++ t0)))
    as (t & Hrun & Ht).
  exists (t0 ++ t). split; [| by rewrite milestones_app, Ht0, Ht].
  etransitivity; [exact Hmain |]. etransitivity; [exact Hrun |].
  unfold print, emit. simpl. by rewrite <- !app_assoc.
Qed.

Lemma main_aborts (net : network) (args : Args) (w : world)
    (before after : list stage) (st : stage) (e : exn) :
  url args ≠ "" → token args ≠ "" →
  let gl := net (url args) (token args) (negb (no_ssl_verify args)) in
  let out := run_outdir args w in
  gl_auth gl = Ret tt →
  stages gl args out = before ++ st :: after →
  Forall completes before → snd (st_walk st) = Raise e →
  ∃ t, main net args w
       = (Raise e, World (foldl stage_output (files w) (before ++ [st]))
                     ({[out]} ∪ dirs w) (clock w) (trace w ++ t))
       ∧ milestones t = concat (stage_marks <$> before ++ [st]).
Proof.
  intros Hurl Htoken gl out Hauth Hsts Hok He.
  destruct (main_chain net args w Hurl Htoken Hauth) as (cs & t0 & Hcs & Hmain & Ht0).
  destruct (chain_aborts cs _ (print (path_str out)) before after st e Hcs Hsts Hok He
              (World (files w) ({[out]} ∪ dirs w) (clock w) (trace w ++ t0)))
    as (t & Hrun & Ht).
  exists (t0 ++ t). split; [| by rewrite milestones_app, Ht0, Ht].
  etransitivity; [exact Hmain |]. etransitivity; [exact Hrun |].
  unfold print, emit. simpl. by rewrite <- !app_assoc.
Qed.

(** A token the server refuses ends the run before any exporter starts. *)
Lemma main_auth_fails (net : network) (args : Args) (w : world) (e : exn) :
  url args ≠ "" → token args ≠ "" →
  gl_auth (net (url args) (token args) (negb (no_ssl_verify args))) = Raise e →
  ∃ line, main net args w
          = (Raise e, World (files w) ({[run_outdir args w]} ∪ dirs w) (clock w)
                        (trace w ++ [EvMkdir (run_outdir args w); EvStderr line;
                                     EvApi ApiAuth])).
Proof.
  intros Hurl Htoken Hauth. unfold main.
  rewrite (nonempty_truthy _ Hurl), (nonempty_truthy _ Htoken).
  simpl negb. cbv iota. unfold run_outdir, make_gitlab_client.
  destruct (truthy (VStr (outdir args))); run; rewrite Hauth; run.
  all: eexists; rewrite <- !app_assoc; reflexivity.
Qed.

(** Without a URL or without a token, [main] prints one line on stderr
    and exits with status 2. *)
Lemma main_config_error (net : network) (args : Args) (w : world) :
  url args = "" ∨ token args = "" →
  ∃ line, main net args w
          = (Raise (SystemExit 2),
             World (files w) (dirs w) (clock w) (trace w ++ [EvStderr line])).
Proof.
  intros Hmissing. unfold main.
  destruct (truthy (VStr (url args))) eqn:Hurl; simpl negb; cbv iota.
  - destruct Hmissing as [Hu | Ht]; [by rewrite Hu in Hurl |].
    rewrite Ht. simpl. by eexists.
  - by eexists.
Qed.

(** C8. When the URL or the token is missing, [main] reports the error
    on stderr and the process exits with a non-zero status; it has called
    no API, created no directory and opened no file, and the file system
    is as it was. *)
Theorem missing_config_exits_early (net : network) (args : Args) (w : world) :
  url args = "" ∨ token args = "" →
  ∃ (line : string) (w' : world),
    main net args w = (Raise (SystemExit 2), w')
    ∧ exit_status (fst (main net args w)) ≠ 0
    ∧ trace w' = trace w ++ [EvStderr line]
    ∧ api_calls (trace w') = api_calls (trace w)
    ∧ opens (trace w') = opens (trace w)
    ∧ files w' = files w
    ∧ dirs w' = dirs w.
Proof.
  intros Hmissing. destruct (main_config_error net args w Hmissing) as [line Hrun].
  exists line. eexists. split; [exact Hrun |]. rewrite Hrun. simpl.
  unfold api_calls, opens. rewrite !omap_app. simpl. by rewrite !app_nil_r.
Qed.

(** ** Listings and walks *)

Lemma iter_of_app (xs : list obj) : iter_of xs = iter_app xs StopIteration.
Proof. induction xs as [|x xs IH]; simpl; by rewrite ?IH. Qed.

Lemma iter_app_app (xs ys : list obj) (it : pyiter) :
  iter_app (xs ++ ys) it = iter_app xs (iter_app ys it).
Proof. induction xs as [|x xs IH]; simpl; by rewrite ?IH. Qed.

(** A paged listing yields the entities of its pages in order, each
    once, wherever the page boundaries fall. *)
Lemma iter_pages_app (pages : list (list obj)) (fault : option exn) :
  iter_pages pages fault
  = iter_app (concat pages)
      (match fault with Some e => Raises e | None => StopIteration end).
Proof.
  induction pages as [|page pages IH]; [done |].
  simpl. rewrite iter_app_app, <- IH. clear IH.
  induction page as [|x page IH]; simpl; by rewrite ?IH.
Qed.

Lemma iter_pages_complete (pages : list (list obj)) :
  iter_pages pages None = iter_of (concat pages).
Proof. by rewrite iter_pages_app, iter_of_app. Qed.

Lemma walk_iter_app (record : obj → outcome row) (xs : list obj) (rows : list row)
    (it : pyiter) :
  Forall2 (λ x r, record x = Ret r) xs rows →
  walk_iter record (iter_app xs it)
  = (rows ++ fst (walk_iter record it), snd (walk_iter record it)).
Proof.
  induction 1 as [|x r xs rows Hx _ IH]; simpl.
  - by destruct (walk_iter record it).
  - by rewrite Hx, IH.
Qed.

Lemma walk_iter_of (record : obj → outcome row) (xs : list obj) (rows : list row) :
  Forall2 (λ x r, record x = Ret r) xs rows →
  walk_iter record (iter_of xs) = (rows, Ret tt).
Proof.
  intros Hxs. rewrite iter_of_app, (walk_iter_app _ _ _ _ Hxs). simpl.
  by rewrite app_nil_r.
Qed.

Lemma paged_complete (pages : list (list obj)) :
  paged pages None = Ret (iter_of (concat pages)).
Proof. unfold paged. rewrite iter_pages_complete. by destruct pages. Qed.

Lemma walk_pages (record : obj → outcome row) (pages : list (list obj)) (rows : list row) :
  Forall2 (λ x r, record x = Ret r) (concat pages) rows →
  walk record (paged pages None) = (rows, Ret tt).
Proof. rewrite paged_complete. apply walk_iter_of. Qed.

(** ** Files of a run *)

Lemma path_div_inj (out : path) (a b : string) :
  path_div out a = path_div out b → a = b.
Proof. unfold path_div. intros H. apply app_inv_head in H. by simplify_eq. Qed.

Lemma lookup_stage_output_ne (fs : gmap path (list row)) (sts : list stage) (p : path) :
  p ∉ st_file <$> sts → foldl stage_output fs sts !! p = fs !! p.
Proof.
  revert fs. induction sts as [|st sts IH]; intros fs Hp; [done |].
  simpl in *. apply not_elem_of_cons in Hp as [Hne Hp].
  rewrite (IH _ Hp). unfold stage_output. by rewrite lookup_insert_ne.
Qed.

Lemma lookup_stage_output (fs : gmap path (list row)) (before after : list stage)
    (st : stage) :
  st_file st ∉ st_file <$> after →
  foldl stage_output fs (before ++ st :: after) !! st_file st
  = Some (st_header st :: fst (st_walk st)).
Proof.
  intros Hafter. rewrite foldl_app. simpl.
  rewrite (lookup_stage_output_ne _ _ _ Hafter). unfold stage_output at 1.
  by rewrite lookup_insert_eq.
Qed.

Lemma stage_files (gl : gitlab) (args : Args) (out : path) :
  st_file <$> stages gl args out
  = [path_div out "projects.csv"]
    ++ (if include_archived args then [path_div out "archived_projects.csv"] else [])
    ++ [path_div out "groups.csv"; path_div out "users.csv"].
Proof. unfold stages. by destruct (include_archived args). Qed.

(** The stages of a run write to different files. *)
Lemma NoDup_stage_files (gl : gitlab) (args : Args) (out : path) :
  NoDup (st_file <$> stages gl args out).
Proof.
  rewrite stage_files. destruct (include_archived args); simpl.
  all: repeat (apply NoDup_cons; split;
               [rewrite ?not_elem_of_cons, ?elem_of_nil;
                repeat split; try tauto; intros ?%path_div_inj; discriminate |]).
  all: apply NoDup_nil_2.
Qed.

(** ** One row per entity *)

Lemma Forall2_record_length (record : obj → outcome row) (xs : list obj) (rows : list row) :
  Forall2 (λ x r, record x = Ret r) xs rows → length rows = length xs.
Proof. intros H. symmetry. by eapply Forall2_length. Qed.

(** C5. When the walker yields the entities of the pages [pages] and ends,
    and each entity's record is fetched, an exporter returns normally
    and its file holds the header followed by the entities' rows, one
    per entity in the order of the listing, however the entities are
    split into pages. With no entity the file holds the header alone;
    and when the users listing is empty and the other stages complete,
    [main] returns normally with status 0, [users.csv] holds its header
    alone, and the output directory is printed last. *)
Theorem exporters_write_one_row_per_entity (gl : gitlab) (out : path) (sleep_s : Q)
    (w : world) (pages : list (list obj)) (rows : list row) :
  (∀ archived members_scope,
     gl_projects_list gl archived = paged pages None →
     Forall2 (λ p r, project_record gl members_scope p = Ret r) (concat pages) rows →
     ∃ w', export_projects gl out archived members_scope sleep_s w = (Ret tt, w')
           ∧ files w' !! out = Some (projects_fields :: rows)
           ∧ length rows = length (concat pages))
  ∧ (∀ members_scope,
       gl_groups_list gl = paged pages None →
       Forall2 (λ g r, group_record gl members_scope g = Ret r) (concat pages) rows →
       ∃ w', export_groups gl out members_scope sleep_s w = (Ret tt, w')
             ∧ files w' !! out = Some (groups_fields :: rows)
             ∧ length rows = length (concat pages))
  ∧ (gl_users_list gl = paged pages None →
     Forall2 (λ u r, user_record gl u = Ret r) (concat pages) rows →
     ∃ w', export_users gl out sleep_s w = (Ret tt, w')
           ∧ files w' !! out = Some (users_fields :: rows)
           ∧ length rows = length (concat pages))
  ∧ (∀ net args,
       url args ≠ "" → token args ≠ "" →
       net (url args) (token args) (negb (no_ssl_verify args)) = gl →
       gl_auth gl = Ret tt →
       (∀ st, st ∈ stages gl args (run_outdir args w) →
              st_list st ≠ ApiUsersList → completes st) →
       gl_users_list gl = paged pages None → concat pages = [] →
       ∃ w', main net args w = (Ret tt, w')
             ∧ exit_status (fst (main net args w)) = 0
             ∧ files w' !! path_div (run_outdir args w) "users.csv" = Some [users_fields]
             ∧ last (trace w') = Some (EvStdout (path_str (run_outdir args w)))).
Proof.
  split; [| split; [| split]].
  - intros archived members_scope Hlist Hrows.
    destruct (export_projects_run gl out archived members_scope sleep_s w)
      as (t & Hrun & _).
    rewrite Hlist, (walk_pages _ _ _ Hrows) in Hrun. eexists. split; [exact Hrun |].
    split; [apply lookup_insert_eq | by eapply Forall2_record_length].
  - intros members_scope Hlist Hrows.
    destruct (export_groups_run gl out members_scope sleep_s w) as (t & Hrun & _).
    rewrite Hlist, (walk_pages _ _ _ Hrows) in Hrun. eexists. split; [exact Hrun |].
    split; [apply lookup_insert_eq | by eapply Forall2_record_length].
  - intros Hlist Hrows.
    destruct (export_users_run gl out sleep_s w) as (t & Hrun & _).
    rewrite Hlist, (walk_pages _ _ _ Hrows) in Hrun. eexists. split; [exact Hrun |].
    split; [apply lookup_insert_eq | by eapply Forall2_record_length].
  - intros net args Hurl Htoken Hgl Hauth Hothers Hlist Hempty.
    assert (Husers : walk (user_record gl) (gl_users_list gl) = ([], Ret tt)).
    { rewrite Hlist. apply walk_pages. rewrite Hempty. constructor. }
    assert (Hok : Forall completes (stages gl args (run_outdir args w))).
    { apply Forall_forall. intros st Hst.
      destruct (decide (st_list st = ApiUsersList)) as [Heq | Hne]; [| by apply Hothers].
      unfold stages in Hst. destruct (include_archived args); simpl in Hst.
      all: rewrite !elem_of_cons, elem_of_nil in Hst.
      all: destruct Hst as [-> | Hst]; [done |].
      all: repeat (destruct Hst as [-> | Hst]; [try done |]); try done.
      all: unfold completes; simpl; by rewrite Husers. }
    subst gl.
    destruct (main_completes net args w Hurl Htoken Hauth Hok) as (t & Hrun & _).
    eexists. split; [exact Hrun |]. rewrite Hrun. simpl. split; [done |]. split.
    + unfold stages. rewrite Husers.
      destruct (include_archived args).
      * exact (lookup_stage_output (files w) [_; _; _] []
                 (Stage _ users_fields ApiUsersList ([], Ret tt)) (not_elem_of_nil _)).
      * exact (lookup_stage_output (files w) [_; _] []
                 (Stage _ users_fields ApiUsersList ([], Ret tt)) (not_elem_of_nil _)).
    + by rewrite !app_assoc, last_snoc.
Qed.

Lemma exporters_write_one_row_per_entity_witness :
  (∃ w', export_users sample_gl ["out"; "users.csv"] 0 sample_world = (Ret tt, w')
         ∧ files w' !! ["out"; "users.csv"]
           = Some [users_fields; user_row "5"; user_row "6"; user_row "7"]
         ∧ length [user_row "5"; user_row "6"; user_row "7"] = 3%nat)
  ∧ (∃ w', main (λ _ _ _, unprivileged_gl) sample_args sample_world = (Ret tt, w')
           ∧ exit_status (fst (main (λ _ _ _, unprivileged_gl) sample_args sample_world)) = 0
           ∧ files w' !! ["out"; "users.csv"] = Some [users_fields]
           ∧ last (trace w') = Some (EvStdout "out")).
Proof.
  split.
  - apply (exporters_write_one_row_per_entity sample_gl ["out"; "users.csv"] 0
             sample_world [[listed 5; listed 6]; [listed 7]]
             [user_row "5"; user_row "6"; user_row "7"]); [reflexivity |].
    repeat constructor.
  - apply (exporters_write_one_row_per_entity unprivileged_gl ["out"; "users.csv"] 0
             sample_world [] [] ) with (net := λ _ _ _, unprivileged_gl)
                                        (args := sample_args);
      try done.
    intros st Hst Hne. unfold stages in Hst. simpl in Hst.
    rewrite !elem_of_cons, elem_of_nil in Hst.
    destruct Hst as [-> | [-> | [-> | []]]]; done.
Defined.

(** ** Runs that complete *)

(** A run of [main] that returns had a URL, a token the server accepted,
    and stages that all completed. *)
Lemma main_Ret_inv (net : network) (args : Args) (w w' : world) :
  main net args w = (Ret tt, w') →
  url args ≠ "" ∧ token args ≠ ""
  ∧ gl_auth (net (url args) (token args) (negb (no_ssl_verify args))) = Ret tt
  ∧ Forall completes
      (stages (net (url args) (token args) (negb (no_ssl_verify args))) args
         (run_outdir args w)).
Proof.
  intros Hmain.
  assert (Hurl : url args ≠ "").
  { intros Hu. destruct (main_config_error net args w (or_introl Hu)) as [line Hrun].
    congruence. }
  assert (Htoken : token args ≠ "").
  { intros Ht. destruct (main_config_error net args w (or_intror Ht)) as [line Hrun].
    congruence. }
  split; [done |]. split; [done |].
  destruct (gl_auth (net (url args) (token args) (negb (no_ssl_verify args))))
    as [[]|e] eqn:Hauth.
  2: { destruct (main_auth_fails net args w e Hurl Htoken Hauth) as (line & Hrun).
       congruence. }
  split; [done |].
  destruct (first_failure
              (stages (net (url args) (token args) (negb (no_ssl_verify args))) args
                 (run_outdir args w)))
    as [Hok | (before & st & after & e & Hsts & Hok & He)]; [done |].
  destruct (main_aborts net args w before after st e Hurl Htoken Hauth Hsts Hok He)
    as (t & Hrun & _).
  congruence.
Qed.

Lemma opens_milestones (t : list event) : opens (milestones t) = opens t.
Proof.
  induction t as [|ev t IH]; [done |].
  destruct ev as [| |c| | |]; simpl; rewrite ?IH; try done.
  destruct c; simpl; by rewrite ?IH.
Qed.

Lemma opens_stage_marks (sts : list stage) :
  opens (concat (stage_marks <$> sts)) = st_file <$> sts.
Proof.
  induction sts as [|st sts IH]; [done |].
  rewrite !fmap_cons. change (concat (stage_marks st :: (stage_marks <$> sts)))
    with (stage_marks st ++ concat (stage_marks <$> sts)).
  unfold opens in *. by rewrite omap_app, IH.
Qed.

Lemma elem_of_milestones (ev : event) (t : list event) :
  ev ∈ t → is_milestone ev = true → ev ∈ milestones t.
Proof.
  intros Hin Hm. apply list_elem_of_In, List.filter_In.
  split; [by apply list_elem_of_In | done].
Qed.

(** C6. A run of [main] that returns has run its stages in this order:
    active projects into [projects.csv]; archived projects into
    [archived_projects.csv], if and only if they were asked for; groups
    into [groups.csv]; users into [users.csv]. Each stage opens its file
    and then lists its collection, and nothing else is opened or listed.
    When archived projects were not asked for, [archived_projects.csv]
    is not opened and is, after the run, what it was before: absent if it
    was absent. *)
Theorem stages_run_in_order (net : network) (args : Args) (w w' : world) :
  main net args w = (Ret tt, w') →
  let out := run_outdir args w in
  ∃ t, trace w' = trace w ++ t
       ∧ milestones t
         = [ EvOpen (path_div out "projects.csv"); EvApi (ApiProjectsList false) ]
           ++ (if include_archived args
               then [ EvOpen (path_div out "archived_projects.csv");
                      EvApi (ApiProjectsList true) ]
               else [])
           ++ [ EvOpen (path_div out "groups.csv"); EvApi ApiGroupsList;
                EvOpen (path_div out "users.csv"); EvApi ApiUsersList ]
       ∧ (include_archived args = false →
          (EvOpen (path_div out "archived_projects.csv") ∉ t)
          ∧ files w' !! path_div out "archived_projects.csv"
            = files w !! path_div out "archived_projects.csv").
Proof.
  intros Hmain out.
  destruct (main_Ret_inv net args w w' Hmain) as (Hurl & Htoken & Hauth & Hok).
  destruct (main_completes net args w Hurl Htoken Hauth Hok) as (t & Hrun & Ht).
  rewrite Hrun in Hmain. injection Hmain as <-. cbn [files trace].
  exists (t ++ [EvStdout (path_str out)]).
  assert (Hmarks : milestones (t ++ [EvStdout (path_str out)])
                   = concat (stage_marks <$> stages
                       (net (url args) (token args) (negb (no_ssl_verify args))) args out)).
  { rewrite milestones_app, Ht. simpl. by rewrite app_nil_r. }
  split; [done |]. split.
  - rewrite Hmarks. unfold stages. by destruct (include_archived args).
  - intros Hno. split.
    + intros Hin. apply elem_of_milestones in Hin; [| done].
      rewrite Hmarks in Hin. unfold stages in Hin. rewrite Hno in Hin. simpl in Hin.
      rewrite !elem_of_cons, elem_of_nil in Hin.
      destruct Hin as [H | [H | [H | [H | [H | [H | []]]]]]]; try discriminate.
      all: injection H as H; apply path_div_inj in H; discriminate.
    + apply (lookup_stage_output_ne (files w) (stages _ args out)).
      rewrite stage_files, Hno. simpl.
      rewrite !not_elem_of_cons, elem_of_nil.
      repeat split; try tauto; intros H%path_div_inj; discriminate.
Qed.

Lemma stages_run_in_order_witness :
  ∃ w' t,
    main (λ _ _ _, sample_gl) sample_args sample_world = (Ret tt, w')
    ∧ trace w' = t
    ∧ milestones t
      = [ EvOpen ["out"; "projects.csv"]; EvApi (ApiProjectsList false);
          EvOpen ["out"; "groups.csv"]; EvApi ApiGroupsList;
          EvOpen ["out"; "users.csv"]; EvApi ApiUsersList ]
    ∧ files w' !! ["out"; "archived_projects.csv"] = None
    ∧ files w' !! ["out"; "projects.csv"]
      = Some [projects_fields; demo_row].
Proof.
  assert (Hmain : main (λ _ _ _, sample_gl) sample_args sample_world
                  = (Ret tt, snd (main (λ _ _ _, sample_gl) sample_args sample_world)))
    by (vm_compute; reflexivity).
  destruct (stages_run_in_order _ _ _ _ Hmain) as (t & Htrace & Hmarks & Hno).
  destruct (Hno eq_refl) as [_ Harchived].
  exists (snd (main (λ _ _ _, sample_gl) sample_args sample_world)), t.
  split; [exact Hmain |]. split; [exact Htrace |]. split; [exact Hmarks |].
  split; [exact Harchived |]. vm_compute. reflexivity.
Defined.

(** ** Errors *)

Lemma lookup_stage_output_elem (fs : gmap path (list row)) (sts : list stage) (st : stage) :
  NoDup (st_file <$> sts) → st ∈ sts →
  foldl stage_output fs sts !! st_file st = Some (st_header st :: fst (st_walk st)).
Proof.
  intros Hnd (before & after & ->)%list_elem_of_split.
  apply lookup_stage_output. rewrite fmap_app, fmap_cons in Hnd.
  apply NoDup_app in Hnd as (_ & _ & Hnd). by apply NoDup_cons in Hnd as [Hnotin _].
Qed.

(** A walk that ends normally went through a finite listing whose
    entities all got their record, and wrote exactly these records. *)
Lemma walk_iter_completes_inv (record : obj → outcome row) (it : pyiter) :
  snd (walk_iter record it) = Ret tt →
  ∃ xs, it = iter_of xs
        ∧ Forall2 (λ x r, record x = Ret r) xs (fst (walk_iter record it)).
Proof.
  induction it as [|x rest IH|e]; simpl.
  - intros _. exists []. by split; [| constructor].
  - destruct (record x) as [r|e] eqn:Hx; [| done].
    destruct (walk_iter record rest) as [rows res]. simpl in *. intros Hres.
    destruct (IH Hres) as (xs & -> & Hxs). exists (x :: xs). split; [done |].
    by constructor.
  - done.
Qed.

Lemma walk_completes_inv (record : obj → outcome row) (listing : outcome pyiter) :
  snd (walk record listing) = Ret tt →
  ∃ xs, listing = Ret (iter_of xs)
        ∧ Forall2 (λ x r, record x = Ret r) xs (fst (walk record listing)).
Proof.
  destruct listing as [it|e]; simpl; [| done]. intros Hres.
  destruct (walk_iter_completes_inv record it Hres) as (xs & -> & Hxs). by exists xs.
Qed.

Lemma members_loop_raises (seen : list obj) (e : exn) (acc : list string) :
  members_loop (iter_app seen (Raises e)) acc = Raise e.
Proof. revert acc. induction seen as [|m seen IH]; intros acc; simpl; [done | apply IH]. Qed.

(** The three ways a walk of projects fails after the projects [done]:
    the listing raises; the detail fetch of the next project raises; or
    its member listing raises. Each ends the walk with that error, after
    the rows of [done]. *)
Lemma walk_projects_fault (gl : gitlab) (members_scope : string)
    (listing : outcome pyiter) (done : list obj) (rows : list row) (e : exn) :
  Forall2 (λ p r, project_record gl members_scope p = Ret r) done rows →
  raises_after listing done e
  ∨ (∃ p rest p_id,
       listing = Ret (iter_app done (Yield p rest)) ∧ p !! "id" = Some p_id
       ∧ (gl_projects_get gl p_id = Raise e
          ∨ ∃ proj seen, gl_projects_get gl p_id = Ret proj
                         ∧ is_Some (attrs proj !! "id")
                         ∧ raises_after (scope_members members_scope proj) seen e)) →
  walk (project_record gl members_scope) listing = (rows, Raise e).
Proof.
  intros Hdone [[[-> ->] | ->] | (p & rest & p_id & -> & Hp & Hfault)]; simpl.
  - by apply Forall2_nil_inv_l in Hdone as ->.
  - rewrite (walk_iter_app _ _ _ _ Hdone). simpl. by rewrite app_nil_r.
  - rewrite (walk_iter_app _ _ _ _ Hdone).
    assert (Hrec : project_record gl members_scope p = Raise e).
    { unfold project_record. rewrite Hp.
      destruct Hfault as [-> | (proj & seen & -> & [proj_id Hid] & [[-> _] | ->])];
        [done | done |].
      rewrite Hid. unfold format_members. by rewrite members_loop_raises. }
    simpl. rewrite Hrec. simpl. by rewrite app_nil_r.
Qed.

(** ** Reruns *)

Lemma stage_output_twice (fs : gmap path (list row)) (gl : gitlab) (args : Args)
    (out : path) :
  foldl stage_output (foldl stage_output fs (stages gl args out)) (stages gl args out)
  = foldl stage_output fs (stages gl args out).
Proof.
  unfold stages. destruct (include_archived args); simpl; unfold stage_output; simpl.
  all: apply map_eq; intros p; rewrite !lookup_insert; by repeat case_decide.
Qed.

(** C10. Each exporter truncates its file when it opens it and writes the
    header first: whatever the file held before, after the exporter it
    holds the header followed by the rows of this run and nothing else,
    and no other file has changed; when the run completed, these rows
    are the records of the listed entities. A run of [main] that
    completed, run again into the same [--outdir] against the same
    server, completes again (the directory may exist) and leaves every
    file with the content it had: nothing is appended. *)
Theorem exporters_replace_their_file (gl : gitlab) (out : path) (sleep_s : Q) (w : world) :
  (∀ archived members_scope,
     let run := walk (project_record gl members_scope) (gl_projects_list gl archived) in
     (∃ w', export_projects gl out archived members_scope sleep_s w = (snd run, w')
            ∧ files w' !! out = Some (projects_fields :: fst run)
            ∧ ∀ p, p ≠ out → files w' !! p = files w !! p)
     ∧ (snd run = Ret tt →
        ∃ ps, gl_projects_list gl archived = Ret (iter_of ps)
              ∧ Forall2 (λ p r, project_record gl members_scope p = Ret r) ps (fst run)))
  ∧ (∀ members_scope,
       let run := walk (group_record gl members_scope) (gl_groups_list gl) in
       (∃ w', export_groups gl out members_scope sleep_s w = (snd run, w')
              ∧ files w' !! out = Some (groups_fields :: fst run)
              ∧ ∀ p, p ≠ out → files w' !! p = files w !! p)
       ∧ (snd run = Ret tt →
          ∃ gs, gl_groups_list gl = Ret (iter_of gs)
                ∧ Forall2 (λ g r, group_record gl members_scope g = Ret r) gs (fst run)))
  ∧ (let run := walk (user_record gl) (gl_users_list gl) in
     (∃ w', export_users gl out sleep_s w = (snd run, w')
            ∧ files w' !! out = Some (users_fields :: fst run)
            ∧ ∀ p, p ≠ out → files w' !! p = files w !! p)
     ∧ (snd run = Ret tt →
        ∃ us, gl_users_list gl = Ret (iter_of us)
              ∧ Forall2 (λ u r, user_record gl u = Ret r) us (fst run)))
  ∧ (∀ net args w1,
       main net args w = (Ret tt, w1) → outdir args ≠ "" →
       ∃ w2, main net args w1 = (Ret tt, w2)
             ∧ files w2 = files w1 ∧ dirs w2 = dirs w1).
Proof.
  split; [| split; [| split]].
  - intros archived members_scope run. split; [| apply walk_completes_inv].
    destruct (export_projects_run gl out archived members_scope sleep_s w)
      as (t & Hrun & _).
    eexists. split; [exact Hrun |]. split; [apply lookup_insert_eq |].
    intros p Hp. by apply lookup_insert_ne.
  - intros members_scope run. split; [| apply walk_completes_inv].
    destruct (export_groups_run gl out members_scope sleep_s w) as (t & Hrun & _).
    eexists. split; [exact Hrun |]. split; [apply lookup_insert_eq |].
    intros p Hp. by apply lookup_insert_ne.
  - intros run. split; [| apply walk_completes_inv].
    destruct (export_users_run gl out sleep_s w) as (t & Hrun & _).
    eexists. split; [exact Hrun |]. split; [apply lookup_insert_eq |].
    intros p Hp. by apply lookup_insert_ne.
  - intros net args w1 Hmain Hout.
    destruct (main_Ret_inv net args w w1 Hmain) as (Hurl & Htoken & Hauth & Hok).
    destruct (main_completes net args w Hurl Htoken Hauth Hok) as (t & Hrun & _).
    rewrite Hrun in Hmain. injection Hmain as <-.
    assert (Hdir : ∀ w0, run_outdir args w0 = [outdir args]).
    { intros w0. unfold run_outdir. by rewrite (nonempty_truthy _ Hout). }
    rewrite !Hdir in *.
    match goal with |- ∃ w2, main net args ?w1 = _ ∧ _ =>
      destruct (main_completes net args w1 Hurl Htoken Hauth) as (t' & Hrun' & _);
      [by rewrite Hdir | rewrite Hdir in Hrun'; cbn [files dirs clock trace] in Hrun']
    end.
    eexists. split; [exact Hrun' |]. cbn [files dirs]. split.
    + apply stage_output_twice.
    + by rewrite (assoc_L (∪)), (idemp_L (∪)).
Qed.

Lemma exporters_replace_their_file_witness :
  ∃ w', export_users sample_gl ["out"; "users.csv"] 0
          (World {[ ["out"; "users.csv"] := [["stale"; "content"]] ]} ∅ "" [])
        = (Ret tt, w')
        ∧ files w' !! ["out"; "users.csv"]
          = Some [users_fields; user_row "5"; user_row "6"; user_row "7"].
Proof.
  destruct (exporters_replace_their_file sample_gl ["out"; "users.csv"] 0
              (World {[ ["out"; "users.csv"] := [["stale"; "content"]] ]} ∅ "" []))
    as (_ & _ & [(w' & Hrun & Hfile & _) _] & _).
  exists w'. split; [exact Hrun | exact Hfile].
Defined.

Lemma missing_config_exits_early_witness :
  ∃ line w', main (λ _ _ _, sample_gl)
               {| url := "https://gitlab.example.com"; token := ""; outdir := "out";
                  include_archived := true; members_scope := "all";
                  no_ssl_verify := false; sleep := 0 |} sample_world
             = (Raise (SystemExit 2), w')
             ∧ trace w' = [EvStderr line] ∧ files w' = ∅ ∧ dirs w' = ∅.
Proof.
  destruct (missing_config_exits_early (λ _ _ _, sample_gl)
              {| url := "https://gitlab.example.com"; token := ""; outdir := "out";
                 include_archived := true; members_scope := "all";
                 no_ssl_verify := false; sleep := 0 |} sample_world
              (or_intror eq_refl))
    as (line & w' & Hrun & _ & Htrace & _ & _ & Hfiles & Hdirs).
  exists line, w'. split; [exact Hrun |]. split; [exact Htrace |]. by split.
Defined.

(** ** Further properties *)

(** X1. The member summary of a finite sequence of entries is the
    semicolon-joined list of its tokens in ascending order, without
    repetition: every token of an entry is in it and nothing else is.
    The empty sequence gives the empty string. *)
Theorem format_members_sorted_set (ms : list obj) :
  (∃ tokens, format_members (iter_of ms) = Ret (join ";" tokens)
             ∧ StronglySorted String.le tokens
             ∧ NoDup tokens
             ∧ ∀ t, t ∈ tokens ↔ t ∈ member_part <$> ms)
  ∧ format_members (iter_of []) = Ret "".
Proof.
  split; [| reflexivity].
  exists (summary_tokens (member_part <$> ms)).
  split; [apply format_members_iter_of |].
  split; [apply summary_tokens_sorted |].
  split; [apply NoDup_summary_tokens |].
  intros t. apply elem_of_summary_tokens.
Qed.

(** X2. The member summary does not rest on the order in which the set
    of tokens is iterated: sorting any enumeration of the tokens without
    repetition gives the tokens of the summary. *)
Theorem format_members_any_set_order (ms : list obj) (enum : list string) :
  NoDup enum → (∀ t, t ∈ enum ↔ t ∈ member_part <$> ms) →
  format_members (iter_of ms) = Ret (join ";" (sorted enum)).
Proof.
  intros Hnd Hin. rewrite format_members_iter_of.
  by rewrite (summary_tokens_any_enumeration _ _ Hnd Hin).
Qed.

Lemma format_members_any_set_order_witness :
  format_members (iter_of [bob; alice; bob])
  = Ret (join ";" (sorted ["bob:Maintainer"; "alice:Developer"])).
Proof.
  apply format_members_any_set_order.
  - apply NoDup_cons. split; [| apply NoDup_singleton].
    rewrite list_elem_of_singleton. discriminate.
  - intros t. vm_compute fmap. rewrite !elem_of_cons, !elem_of_nil. tauto.
Defined.

(** X3. When the server refuses the token, [main] ends with the error of
    the validation call: the output directory exists, but no exporter
    has run, no file is opened or changed, and the validation is the only
    call made. *)
Theorem auth_error_aborts_before_exporters (net : network) (args : Args) (w : world)
    (e : exn) :
  url args ≠ "" → token args ≠ "" →
  gl_auth (net (url args) (token args) (negb (no_ssl_verify args))) = Raise e →
  ∃ w', main net args w = (Raise e, w')
        ∧ files w' = files w
        ∧ dirs w' = {[run_outdir args w]} ∪ dirs w
        ∧ opens (trace w') = opens (trace w)
        ∧ api_calls (trace w') = api_calls (trace w) ++ [ApiAuth].
Proof.
  intros Hurl Htoken Hauth.
  destruct (main_auth_fails net args w e Hurl Htoken Hauth) as (line & Hrun).
  eexists. split; [exact Hrun |]. cbn [files dirs trace].
  unfold opens, api_calls. rewrite !omap_app. simpl. by rewrite app_nil_r.
Qed.

Lemma auth_error_aborts_before_exporters_witness :
  ∃ w', main (λ _ _ _, locked_gl) sample_args sample_world
        = (Raise (GitlabError "401 Unauthorized"), w')
        ∧ files w' = ∅
        ∧ api_calls (trace w') = [ApiAuth].
Proof.
  destruct (auth_error_aborts_before_exporters (λ _ _ _, locked_gl) sample_args
              sample_world (GitlabError "401 Unauthorized"))
    as (w' & Hrun & Hfiles & _ & _ & Hcalls); [discriminate | discriminate | reflexivity |].
  exists w'. split; [exact Hrun |]. split; [exact Hfiles | exact Hcalls].
Defined.

(** ** Role names *)

Lemma pretty_N_char_digit (x : N) : is_digit (pretty_N_char x) = true.
Proof. unfold pretty_N_char. by repeat case_match. Qed.

Lemma pretty_N_go_digit (x : N) (s : string) :
  starts_with_digit s → starts_with_digit (pretty_N_go x s).
Proof.
  revert s. induction (N.lt_wf_0 x) as [x _ IH]; intros s Hs.
  destruct (decide (x = 0%N)) as [-> | Hx]; [by rewrite pretty_N_go_0 |].
  rewrite pretty_N_go_step by lia. apply IH; [apply N.div_lt; lia |].
  simpl. apply pretty_N_char_digit.
Qed.

Lemma pretty_pos_digit (p : positive) : starts_with_digit (pretty (Z.pos p)).
Proof.
  unfold pretty, pretty_Z, pretty, pretty_positive, pretty, pretty_N.
  case_decide; [done |]. rewrite pretty_N_go_step by lia.
  apply pretty_N_go_digit. simpl. apply pretty_N_char_digit.
Qed.

(** The decimal rendering of an integer starts with a digit or with the
    minus sign. *)
Lemma pretty_Z_head (n : Z) :
  starts_with_digit (pretty n) ∨ ∃ s, pretty n = String "-" s.
Proof.
  destruct n as [|p|p].
  - by left.
  - left. apply pretty_pos_digit.
  - right. by eexists.
Qed.

Lemma pretty_Z_not_name (n : Z) (c : ascii) (s : string) :
  is_digit c = false → c ≠ "-"%char → pretty n ≠ String c s.
Proof.
  intros Hc Hdash Heq. destruct (pretty_Z_head n) as [Hd | [s' Hs']].
  - rewrite Heq in Hd. simpl in Hd. congruence.
  - rewrite Heq in Hs'. congruence.
Qed.

Lemma access_level_name_int (n : Z) :
  (n = 10 ∧ access_level_name (VInt n) = "Guest")
  ∨ (n = 20 ∧ access_level_name (VInt n) = "Reporter")
  ∨ (n = 30 ∧ access_level_name (VInt n) = "Developer")
  ∨ (n = 40 ∧ access_level_name (VInt n) = "Maintainer")
  ∨ (n = 50 ∧ access_level_name (VInt n) = "Owner")
  ∨ ((n ∉ [10; 20; 30; 40; 50]) ∧ access_level_name (VInt n) = pretty n).
Proof.
  destruct (decide (n = 10)) as [-> | H10]; [by left |].
  destruct (decide (n = 20)) as [-> | H20]; [by right; left |].
  destruct (decide (n = 30)) as [-> | H30]; [by right; right; left |].
  destruct (decide (n = 40)) as [-> | H40]; [by right; right; right; left |].
  destruct (decide (n = 50)) as [-> | H50]; [by right; right; right; right; left |].
  do 5 right.
  assert (Hn : n ∉ [10; 20; 30; 40; 50]).
  { rewrite !not_elem_of_cons, elem_of_nil. tauto. }
  split; [done |]. unfold access_level_name, ACCESS_LEVELS_get. simpl.
  by rewrite (ACCESS_LEVELS_unknown n Hn).
Qed.

Lemma pretty_Z_nonempty (n : Z) : pretty n ≠ "".
Proof.
  destruct (pretty_Z_head n) as [Hd | [s Hs]]; [| by rewrite Hs].
  by destruct (pretty n).
Qed.

(** X4. Different integer access levels get different role names, and no
    integer level gets the empty name: a decimal string is never one of
    the five names. So two entries with the same identity collapse in
    the summary only when their levels are equal. *)
Theorem access_level_name_distinct (n m : Z) :
  (access_level_name (VInt n) = access_level_name (VInt m) ↔ n = m)
  ∧ access_level_name (VInt n) ≠ ""
  ∧ (∀ a b : obj,
       member_ident a = member_ident b →
       a !! "access_level" = Some (VInt n) → b !! "access_level" = Some (VInt m) →
       (member_part a = member_part b ↔ n = m)).
Proof.
  assert (Hinj : access_level_name (VInt n) = access_level_name (VInt m) → n = m).
  { destruct (access_level_name_int n)
      as [[-> ->] | [[-> ->] | [[-> ->] | [[-> ->] | [[-> ->] | [_ ->]]]]]];
    destruct (access_level_name_int m)
      as [[-> ->] | [[-> ->] | [[-> ->] | [[-> ->] | [[-> ->] | [_ ->]]]]]];
    intros Heq; try done.
    all: try (symmetry in Heq; by apply pretty_Z_not_name in Heq).
    all: try (by apply pretty_Z_not_name in Heq).
    by apply (inj pretty). }
  split; [split; [done | by intros ->] |]. split.
  - destruct (access_level_name_int n)
      as [[-> ->] | [[-> ->] | [[-> ->] | [[-> ->] | [[-> ->] | [_ ->]]]]]];
      try done.
    apply pretty_Z_nonempty.
  - intros a b Hident Ha Hb. unfold member_part, safe_get. rewrite Ha, Hb, Hident.
    split; [| by intros ->].
    intros Heq. apply Hinj. by repeat apply (inj (String.append _)) in Heq.
Qed.

(** ** Summaries and iterators *)

Lemma occurs_app (c : ascii) (s1 s2 : string) :
  occurs c (s1 +:+ s2) = occurs c s1 || occurs c s2.
Proof. induction s1 as [|c1 s1 IH]; simpl; [done |]. by rewrite IH, orb_assoc. Qed.

Lemma member_part_colon (m : obj) : occurs ":" (member_part m) = true.
Proof. unfold member_part. rewrite occurs_app. simpl. by rewrite orb_true_r. Qed.

Lemma join_nil_inv (sep t : string) (l : list string) :
  join sep (t :: l) = "" → t = "".
Proof.
  destruct l as [|t' l]; simpl; [done |].
  by destruct t.
Qed.

(** Every iterator is a finite sequence of items that ends normally or
    with an error. *)
Lemma pyiter_shape (it : pyiter) :
  (∃ ms, it = iter_of ms) ∨ (∃ seen e, it = iter_app seen (Raises e)).
Proof.
  induction it as [|x rest [[ms ->] | (seen & e & ->)]|e].
  - left. by exists [].
  - left. by exists (x :: ms).
  - right. by exists (x :: seen), e.
  - right. by exists [], e.
Qed.

(** X5. [format_members] consumes the whole iterator: when the iterator
    ends normally it returns the summary of all its entries, and when
    the iterator raises, after any number of entries, it raises the same
    error and returns no partial summary. *)
Theorem format_members_all_or_nothing (it : pyiter) :
  (∃ ms, it = iter_of ms
         ∧ format_members it = Ret (join ";" (summary_tokens (member_part <$> ms))))
  ∨ (∃ seen e, it = iter_app seen (Raises e) ∧ format_members it = Raise e).
Proof.
  destruct (pyiter_shape it) as [[ms ->] | (seen & e & ->)].
  - left. exists ms. split; [done | apply format_members_iter_of].
  - right. exists seen, e. split; [done |].
    unfold format_members. by rewrite members_loop_raises.
Qed.

(** X6. Every token of a summary contains a colon, so no token is empty;
    and the summary is the empty string exactly when there is no entry:
    an empty members cell means an empty listing. *)
Theorem format_members_empty_iff (ms : list obj) :
  (format_members (iter_of ms) = Ret "" ↔ ms = [])
  ∧ Forall (λ t, occurs ":" t = true ∧ t ≠ "") (summary_tokens (member_part <$> ms)).
Proof.
  assert (Htok : Forall (λ t, occurs ":" t = true ∧ t ≠ "")
                   (summary_tokens (member_part <$> ms))).
  { apply Forall_forall. intros t [m [-> _]]%elem_of_summary_tokens%list_elem_of_fmap.
    pose proof (member_part_colon m) as Hc. split; [done |].
    intros Hempty. by rewrite Hempty in Hc. }
  split; [| done]. rewrite format_members_iter_of. split; [| by intros ->].
  intros Hjoin. injection Hjoin as Hjoin.
  destruct ms as [|m ms]; [done | exfalso].
  assert (Hin : member_part m ∈ summary_tokens (member_part <$> m :: ms)).
  { apply elem_of_summary_tokens. by left. }
  destruct (summary_tokens (member_part <$> m :: ms)) as [|t l] eqn:Hl.
  - by apply elem_of_nil in Hin.
  - apply join_nil_inv in Hjoin. apply Forall_cons in Htok as [[_ Hne] _]. done.
Qed.

(** ** Rows *)

Lemma dict_row_length (fields : list string) (d : gmap string pyval) :
  length (dict_row fields d) = length fields.
Proof. unfold dict_row. apply length_fmap. Qed.

Lemma project_record_length (gl : gitlab) (members_scope : string) (p : obj) (r : row) :
  project_record gl members_scope p = Ret r → length r = length projects_fields.
Proof.
  unfold project_record. repeat case_match; try done.
  intros [= <-]. apply dict_row_length.
Qed.

Lemma group_record_length (gl : gitlab) (members_scope : string) (g : obj) (r : row) :
  group_record gl members_scope g = Ret r → length r = length groups_fields.
Proof.
  unfold group_record. repeat case_match; try done.
  intros [= <-]. apply dict_row_length.
Qed.

Lemma user_record_length (gl : gitlab) (u : obj) (r : row) :
  user_record gl u = Ret r → length r = length users_fields.
Proof.
  unfold user_record. repeat case_match; try done.
  intros [= <-]. apply dict_row_length.
Qed.

Lemma walk_iter_Forall (P : row → Prop) (record : obj → outcome row) (it : pyiter) :
  (∀ x r, record x = Ret r → P r) → Forall P (fst (walk_iter record it)).
Proof.
  intros HP. induction it as [|x rest IH|e]; simpl; [constructor | | constructor].
  destruct (record x) as [r|e] eqn:Hx; [| constructor].
  destruct (walk_iter record rest) as [rows res]. simpl in *.
  constructor; [by eapply HP | done].
Qed.

Lemma walk_Forall (P : row → Prop) (record : obj → outcome row)
    (listing : outcome pyiter) :
  (∀ x r, record x = Ret r → P r) → Forall P (fst (walk record listing)).
Proof.
  intros HP. destruct listing as [it|e]; simpl; [by apply walk_iter_Forall | constructor].
Qed.

(** X7. Whatever the server answers and however the run ends, the file an
    exporter leaves is rectangular: the header (8, 7 and 10 columns for
    projects, groups and users) followed by rows that each have as many
    cells as the header. *)
Theorem exported_files_are_rectangular (gl : gitlab) (out : path) (sleep_s : Q)
    (w : world) :
  (∀ archived members_scope,
     ∃ res w' rows,
       export_projects gl out archived members_scope sleep_s w = (res, w')
       ∧ files w' !! out = Some (projects_fields :: rows)
       ∧ Forall (λ r, length r = 8%nat) (projects_fields :: rows))
  ∧ (∀ members_scope,
       ∃ res w' rows,
         export_groups gl out members_scope sleep_s w = (res, w')
         ∧ files w' !! out = Some (groups_fields :: rows)
         ∧ Forall (λ r, length r = 7%nat) (groups_fields :: rows))
  ∧ (∃ res w' rows,
       export_users gl out sleep_s w = (res, w')
       ∧ files w' !! out = Some (users_fields :: rows)
       ∧ Forall (λ r, length r = 10%nat) (users_fields :: rows)).
Proof.
  split; [| split].
  - intros archived members_scope.
    destruct (export_projects_run gl out archived members_scope sleep_s w)
      as (t & Hrun & _).
    eexists _, _, _. split; [exact Hrun |]. split; [apply lookup_insert_eq |].
    constructor; [done |]. apply walk_Forall. apply project_record_length.
  - intros members_scope.
    destruct (export_groups_run gl out members_scope sleep_s w) as (t & Hrun & _).
    eexists _, _, _. split; [exact Hrun |]. split; [apply lookup_insert_eq |].
    constructor; [done |]. apply walk_Forall. apply group_record_length.
  - destruct (export_users_run gl out sleep_s w) as (t & Hrun & _).
    eexists _, _, _. split; [exact Hrun |]. split; [apply lookup_insert_eq |].
    constructor; [done |]. apply walk_Forall. apply user_record_length.
Qed.

(** X8. In each exporter the keys of the dict given to [writerow] are
    exactly the writer's field names, and no field name is repeated: no
    column is left to a default and no key is foreign to the header. *)
Theorem row_keys_are_the_fields (id : pyval) (o : obj) (summary : string) :
  (dom (project_dict id o summary) = list_to_set projects_fields
   ∧ NoDup projects_fields)
  ∧ (dom (group_dict id o summary) = list_to_set groups_fields ∧ NoDup groups_fields)
  ∧ (dom (user_dict id o) = list_to_set users_fields ∧ NoDup users_fields).
Proof.
  split; [| split]; (split; [| compute_done]).
  - unfold project_dict. rewrite !dom_insert_L, dom_singleton_L. simpl.
    by rewrite (right_id_L ∅ (∪)).
  - unfold group_dict. rewrite !dom_insert_L, dom_singleton_L. simpl.
    by rewrite (right_id_L ∅ (∪)).
  - unfold user_dict. rewrite !dom_insert_L, dom_singleton_L. simpl.
    by rewrite (right_id_L ∅ (∪)).
Qed.

Lemma text_cell_unset (o : obj) (attr : string) :
  unset (o !! attr) → csv_cell (safe_get o attr (VStr "")) = "".
Proof. unfold safe_get. by intros [-> | ->]. Qed.

Lemma flag_cell_unset (o : obj) (attr : string) :
  unset (o !! attr) → csv_cell (py_bool (safe_get o attr (VBool false))) = "False".
Proof. unfold safe_get. by intros [-> | ->]. Qed.

Lemma flag_cell_bool (v : pyval) :
  csv_cell (py_bool v) = "True" ∨ csv_cell (py_bool v) = "False".
Proof. unfold py_bool. simpl. destruct (truthy v); auto. Qed.

Lemma text_cell_set (o : obj) (attr : string) (v : pyval) :
  o !! attr = Some v → csv_cell (safe_get o attr (VStr "")) = csv_cell v.
Proof. unfold safe_get. by intros ->. Qed.

Lemma flag_cell_set (o : obj) (attr : string) (v : pyval) :
  o !! attr = Some v →
  csv_cell (py_bool (safe_get o attr (VBool false)))
  = if truthy v then "True" else "False".
Proof. unfold safe_get, py_bool. intros ->. simpl. by destruct (truthy v). Qed.

Lemma text_column_cell (r : row) (o : obj) (k : nat) (attr : string) :
  r !! k = Some (csv_cell (safe_get o attr (VStr ""))) → text_column r o k attr.
Proof.
  intros Hk. split.
  - intros Hunset. by rewrite Hk, (text_cell_unset _ _ Hunset).
  - intros v Hv. by rewrite Hk, (text_cell_set _ _ _ Hv).
Qed.

Lemma flag_column_cell (r : row) (o : obj) (k : nat) (attr : string) :
  r !! k = Some (csv_cell (py_bool (safe_get o attr (VBool false)))) →
  flag_column r o k attr.
Proof.
  intros Hk. split; [| split].
  - rewrite Hk. destruct (flag_cell_bool (safe_get o attr (VBool false))) as [-> | ->]; auto.
  - intros Hunset. by rewrite Hk, (flag_cell_unset _ _ Hunset).
  - intros v Hv. by rewrite Hk, (flag_cell_set _ _ _ Hv).
Qed.

(** X9. Attributes other than the id are optional, each on its own. A
    listed entity whose detail is fetched and has an id (and, for a
    project or a group, whose members are listed) gets its row whatever
    its other attributes are. In that row the cell of each text
    attribute is empty when this attribute is absent or [None], and
    otherwise shows its value, whatever the other attributes hold; the
    cell of each flag ([is_admin], [external], [bot] of a user,
    [archived] of a project) is [True] or [False], [False] when this
    flag is absent or [None]. The first cell is the id of the detail
    and, for projects and groups, the last is the member summary. *)
Theorem optional_attributes_default (gl : gitlab) (members_scope : string)
    (x : obj) (x_id : pyval) :
  x !! "id" = Some x_id →
  (∀ user user_id,
     gl_users_get gl x_id = Ret user → user !! "id" = Some user_id →
     ∃ r, user_record gl x = Ret r
          ∧ r !! 0%nat = Some (csv_cell user_id)
          ∧ Forall (λ '(k, attr), text_column r user k attr)
              [(1, "username"); (2, "name"); (3, "state"); (7, "email");
               (8, "created_at"); (9, "last_sign_in_at")]%nat
          ∧ Forall (λ '(k, attr), flag_column r user k attr)
              [(4, "is_admin"); (5, "external"); (6, "bot")]%nat)
  ∧ (∀ proj proj_id members_iter summary,
       gl_projects_get gl x_id = Ret proj → attrs proj !! "id" = Some proj_id →
       scope_members members_scope proj = Ret members_iter →
       format_members members_iter = Ret summary →
       ∃ r, project_record gl members_scope x = Ret r
            ∧ r !! 0%nat = Some (csv_cell proj_id)
            ∧ Forall (λ '(k, attr), text_column r (attrs proj) k attr)
                [(1, "name"); (2, "path_with_namespace"); (3, "http_url_to_repo");
                 (4, "default_branch"); (5, "visibility")]%nat
            ∧ flag_column r (attrs proj) 6 "archived"
            ∧ r !! 7%nat = Some summary)
  ∧ (∀ grp grp_id members_iter summary,
       gl_groups_get gl x_id = Ret grp → attrs grp !! "id" = Some grp_id →
       scope_members members_scope grp = Ret members_iter →
       format_members members_iter = Ret summary →
       ∃ r, group_record gl members_scope x = Ret r
            ∧ r !! 0%nat = Some (csv_cell grp_id)
            ∧ Forall (λ '(k, attr), text_column r (attrs grp) k attr)
                [(1, "name"); (2, "full_path"); (3, "web_url"); (4, "visibility");
                 (5, "parent_id")]%nat
            ∧ r !! 6%nat = Some summary).
Proof.
  intros Hx. split; [| split].
  - intros user user_id Hget Hid. unfold user_record. rewrite Hx, Hget, Hid.
    change (dict_row users_fields (user_dict user_id user))
      with [ csv_cell user_id;
             csv_cell (safe_get user "username" (VStr ""));
             csv_cell (safe_get user "name" (VStr ""));
             csv_cell (safe_get user "state" (VStr ""));
             csv_cell (py_bool (safe_get user "is_admin" (VBool false)));
             csv_cell (py_bool (safe_get user "external" (VBool false)));
             csv_cell (py_bool (safe_get user "bot" (VBool false)));
             csv_cell (safe_get user "email" (VStr ""));
             csv_cell (safe_get user "created_at" (VStr ""));
             csv_cell (safe_get user "last_sign_in_at" (VStr "")) ].
    eexists. split; [done |]. split; [done |].
    rewrite !Forall_cons, !Forall_nil.
    repeat match goal with
           | |- _ ∧ _ => split
           | |- True => exact I
           | |- text_column _ _ _ _ => by apply text_column_cell
           | |- flag_column _ _ _ _ => by apply flag_column_cell
           end.
  - intros proj proj_id members_iter summary Hget Hid Hmembers Hsummary.
    unfold project_record. rewrite Hx, Hget, Hmembers, Hid, Hsummary.
    change (dict_row projects_fields (project_dict proj_id (attrs proj) summary))
      with [ csv_cell proj_id;
             csv_cell (safe_get (attrs proj) "name" (VStr ""));
             csv_cell (safe_get (attrs proj) "path_with_namespace" (VStr ""));
             csv_cell (safe_get (attrs proj) "http_url_to_repo" (VStr ""));
             csv_cell (safe_get (attrs proj) "default_branch" (VStr ""));
             csv_cell (safe_get (attrs proj) "visibility" (VStr ""));
             csv_cell (py_bool (safe_get (attrs proj) "archived" (VBool false)));
             summary ].
    eexists. split; [done |]. split; [done |].
    rewrite !Forall_cons, !Forall_nil.
    repeat match goal with
           | |- _ ∧ _ => split
           | |- True => exact I
           | |- text_column _ _ _ _ => by apply text_column_cell
           | |- flag_column _ _ _ _ => by apply flag_column_cell
           | |- _ !! _ = Some _ => reflexivity
           end.
  - intros grp grp_id members_iter summary Hget Hid Hmembers Hsummary.
    unfold group_record. rewrite Hx, Hget, Hmembers, Hid, Hsummary.
    change (dict_row groups_fields (group_dict grp_id (attrs grp) summary))
      with [ csv_cell grp_id;
             csv_cell (safe_get (attrs grp) "name" (VStr ""));
             csv_cell (safe_get (attrs grp) "full_path" (VStr ""));
             csv_cell (safe_get (attrs grp) "web_url" (VStr ""));
             csv_cell (safe_get (attrs grp) "visibility" (VStr ""));
             csv_cell (safe_get (attrs grp) "parent_id" (VStr ""));
             summary ].
    eexists. split; [done |]. split; [done |].
    rewrite !Forall_cons, !Forall_nil.
    repeat match goal with
           | |- _ ∧ _ => split
           | |- True => exact I
           | |- text_column _ _ _ _ => by apply text_column_cell
           | |- _ !! _ = Some _ => reflexivity
           end.
Qed.

Lemma optional_attributes_default_witness :
  ∃ r, user_record sample_gl (listed 5) = Ret r
       ∧ r !! 0%nat = Some "5"
       ∧ r !! 3%nat = Some "active"
       ∧ r !! 7%nat = Some ""
       ∧ r !! 4%nat = Some "False".
Proof.
  destruct (optional_attributes_default sample_gl "direct" (listed 5) (VInt 5) eq_refl)
    as (Husers & _ & _).
  destruct (Husers {[ "id" := VInt 5; "state" := VStr "active" ]} (VInt 5)
              eq_refl eq_refl) as (r & Hrow & Hid & Htext & Hflags).
  exists r. split; [exact Hrow |]. split; [exact Hid |].
  rewrite !Forall_cons in Htext. rewrite !Forall_cons in Hflags.
  destruct Htext as (_ & _ & [_ Hstate] & [Hemail _] & _).
  destruct Hflags as ((_ & Hadmin & _) & _).
  split; [exact (Hstate (VStr "active") eq_refl) |].
  split; [apply Hemail; by left | apply Hadmin; by left].
Defined.

Lemma walk_iter_fault (record : obj → outcome row) (done : list obj) (rows : list row)
    (x : obj) (rest : pyiter) (e : exn) :
  Forall2 (λ y r, record y = Ret r) done rows → record x = Raise e →
  walk_iter record (iter_app done (Yield x rest)) = (rows, Raise e).
Proof.
  intros Hdone Hx. rewrite (walk_iter_app _ _ _ _ Hdone). simpl. rewrite Hx. simpl.
  by rewrite app_nil_r.
Qed.

(** X10. The id is the one attribute read without a default. When a
    listed entity has no [id], or the detail fetched for it has none,
    the exporter ends there with [AttributeError] for [id]: the file
    keeps the header and the rows of the entities before, and no row is
    written for the entity. *)
Theorem missing_id_aborts (gl : gitlab) (out : path) (sleep_s : Q) (w : world)
    (done : list obj) (rows : list row) (x : obj) (rest : pyiter) :
  (∀ archived members_scope,
     gl_projects_list gl archived = Ret (iter_app done (Yield x rest)) →
     Forall2 (λ p r, project_record gl members_scope p = Ret r) done rows →
     x !! "id" = None
     ∨ (∃ x_id proj members_iter,
          x !! "id" = Some x_id ∧ gl_projects_get gl x_id = Ret proj
          ∧ scope_members members_scope proj = Ret members_iter
          ∧ attrs proj !! "id" = None) →
     ∃ w', export_projects gl out archived members_scope sleep_s w
           = (Raise (AttributeError "id"), w')
           ∧ files w' !! out = Some (projects_fields :: rows))
  ∧ (∀ members_scope,
       gl_groups_list gl = Ret (iter_app done (Yield x rest)) →
       Forall2 (λ g r, group_record gl members_scope g = Ret r) done rows →
       x !! "id" = None
       ∨ (∃ x_id grp members_iter,
            x !! "id" = Some x_id ∧ gl_groups_get gl x_id = Ret grp
            ∧ scope_members members_scope grp = Ret members_iter
            ∧ attrs grp !! "id" = None) →
       ∃ w', export_groups gl out members_scope sleep_s w
             = (Raise (AttributeError "id"), w')
             ∧ files w' !! out = Some (groups_fields :: rows))
  ∧ (gl_users_list gl = Ret (iter_app done (Yield x rest)) →
     Forall2 (λ u r, user_record gl u = Ret r) done rows →
     x !! "id" = None
     ∨ (∃ x_id user, x !! "id" = Some x_id ∧ gl_users_get gl x_id = Ret user
                     ∧ user !! "id" = None) →
     ∃ w', export_users gl out sleep_s w = (Raise (AttributeError "id"), w')
           ∧ files w' !! out = Some (users_fields :: rows)).
Proof.
  split; [| split].
  - intros archived members_scope Hlist Hdone Hid.
    assert (Hx : project_record gl members_scope x = Raise (AttributeError "id")).
    { unfold project_record.
      destruct Hid as [-> | (x_id & proj & it & -> & -> & -> & ->)]; done. }
    destruct (export_projects_run gl out archived members_scope sleep_s w)
      as (t & Hrun & _).
    cbv zeta in Hrun. rewrite Hlist in Hrun. simpl in Hrun.
    rewrite (walk_iter_fault _ _ _ _ _ _ Hdone Hx) in Hrun.
    eexists. split; [exact Hrun | apply lookup_insert_eq].
  - intros members_scope Hlist Hdone Hid.
    assert (Hx : group_record gl members_scope x = Raise (AttributeError "id")).
    { unfold group_record.
      destruct Hid as [-> | (x_id & grp & it & -> & -> & -> & ->)]; done. }
    destruct (export_groups_run gl out members_scope sleep_s w) as (t & Hrun & _).
    cbv zeta in Hrun. rewrite Hlist in Hrun. simpl in Hrun.
    rewrite (walk_iter_fault _ _ _ _ _ _ Hdone Hx) in Hrun.
    eexists. split; [exact Hrun | apply lookup_insert_eq].
  - intros Hlist Hdone Hid.
    assert (Hx : user_record gl x = Raise (AttributeError "id")).
    { unfold user_record.
      destruct Hid as [-> | (x_id & user & -> & -> & ->)]; done. }
    destruct (export_users_run gl out sleep_s w) as (t & Hrun & _).
    cbv zeta in Hrun. rewrite Hlist in Hrun. simpl in Hrun.
    rewrite (walk_iter_fault _ _ _ _ _ _ Hdone Hx) in Hrun.
    eexists. split; [exact Hrun | apply lookup_insert_eq].
Qed.

Lemma missing_id_aborts_witness :
  ∃ w', export_projects (sample_server (paged [[listed 1; ∅]] None) (paged [] None))
          ["out"; "projects.csv"] false "direct" 0 sample_world
        = (Raise (AttributeError "id"), w')
        ∧ files w' !! ["out"; "projects.csv"] = Some [projects_fields; demo_row].
Proof.
  destruct (missing_id_aborts
              (sample_server (paged [[listed 1; ∅]] None) (paged [] None))
              ["out"; "projects.csv"] 0 sample_world [listed 1] [demo_row] ∅ StopIteration)
    as (Hprojects & _ & _).
  apply (Hprojects false "direct"); [reflexivity | | by left].
  repeat constructor.
Defined.

(** ** The events of an exporter *)

Lemma for_in_events (out : path) (record : obj → outcome row)
    (turn : obj → Z → list event) (body : obj → Z → M Z) :
  body_emits out record turn body →
  ∀ it count w rows0, files w !! out = Some rows0 →
    ∃ n, for_in it body count w
         = (match snd (walk_iter record it) with Ret _ => Ret n | Raise e => Raise e end,
            written out (rows0 ++ fst (walk_iter record it))
              (loop_events record turn it count) w).
Proof.
  intros Hbody it. induction it as [|x rest IH|e]; intros count w rows0 Hf; simpl.
  - exists count. by rewrite app_nil_r, written_same.
  - unfold bind. rewrite (Hbody x count w rows0 Hf). destruct (record x) as [r|e].
    + destruct (IH (count + 1) (written out (rows0 ++ [r]) (turn x count) w)
                  (rows0 ++ [r])) as (n & Hrest).
      { simpl. apply lookup_insert_eq. }
      rewrite Hrest, written_written. destruct (walk_iter record rest) as [rows res].
      simpl. exists n. by rewrite <- app_assoc.
    + exists count. simpl. by rewrite !app_nil_r.
  - exists count. by rewrite app_nil_r, written_same.
Qed.

Lemma exporter_events (out : path) (header : list string) (msg1 msg2 : string)
    (c : api_call) (listing : outcome pyiter) (record : obj → outcome row)
    (turn : obj → Z → list event) (body : obj → Z → M Z) :
  body_emits out record turn body →
  ∀ w,
    (eprint msg1 ;;
     open_w out ;;
     writeheader {| dw_file := out; fieldnames := header |} ;;
     let* items := call c listing in
     for_in items body 0 ;;
     eprint msg2) w
    = (snd (walk record listing),
       written out (header :: fst (walk record listing))
         (export_events out msg1 msg2 c listing record turn) w).
Proof.
  intros Hbody w. unfold export_events. destruct listing as [it|e]; run.
  2: { unfold written. simpl. rewrite alter_insert_eq.
       by rewrite <- !app_assoc. }
  match goal with |- context [for_in it body 0 ?w1] =>
    destruct (for_in_events out record turn body Hbody it 0 w1 [header]) as (n & Hrun);
    [simpl; by rewrite lookup_alter_eq, lookup_insert_eq | rewrite Hrun]
  end.
  unfold written. simpl. rewrite insert_alter_eq, insert_insert_eq.
  destruct (walk_iter record it) as [rows [[]|e]]; simpl;
    rewrite <- ?app_assoc; simpl; by rewrite ?app_nil_r.
Qed.

(** Closing a goal [run = expected] once the run is an explicit world and
    the expected events an explicit list. *)
Ltac close_exact Hf :=
  first
  [ by rewrite (written_same _ _ _ Hf)
  | first [ rewrite (written_events _ _ _ _ Hf)
          | rewrite (written_append _ _ _ _ _ Hf) ];
    rewrite <- ?app_assoc; reflexivity ].

Lemma users_body_emits (gl : gitlab) (out : path) (sleep_s : Q) :
  body_emits out (user_record gl) (user_turn gl sleep_s)
    (λ u count,
       let count := count + 1 in
       let* u_id := getattr u "id" in
       let* user := users_get gl u_id in
       let* user_id := getattr user "id" in
       writerow {| dw_file := out; fieldnames := users_fields |} (user_dict user_id user) ;;
       (if positive_delay sleep_s then time_sleep sleep_s else ret tt) ;;
       (if count mod 200 =? 0
        then eprint ("  ..." +:+ pretty count +:+ " users processed")
        else ret tt) ;;
       ret count).
Proof.
  intros u count w rows0 Hf. unfold user_record, user_turn, turn_end.
  destruct (u !! "id") as [u_id|] eqn:Hu; run; rewrite Hu; [| close_exact Hf].
  run. destruct (gl_users_get gl u_id) as [user|e]; run; [| close_exact Hf].
  destruct (user !! "id") as [user_id|] eqn:Hid; run; [| close_exact Hf].
  destruct (positive_delay sleep_s), ((count + 1) mod 200 =? 0); run; close_exact Hf.
Qed.

Lemma projects_body_emits (gl : gitlab) (out : path) (members_scope : string)
    (sleep_s : Q) :
  body_emits out (project_record gl members_scope)
    (project_turn gl members_scope sleep_s)
    (λ p count,
       let count := count + 1 in
       let* p_id := getattr p "id" in
       let* proj := projects_get gl p_id in
       let* members_iter :=
         if String.eqb members_scope "all"
         then iter_all (members_all_list (ApiProjectMembers p_id true) proj) tt
         else iter_all (members_list (ApiProjectMembers p_id false) proj) tt in
       let* proj_id := getattr (attrs proj) "id" in
       let* members_summary := lift (format_members members_iter) in
       writerow {| dw_file := out; fieldnames := projects_fields |}
         (project_dict proj_id (attrs proj) members_summary) ;;
       (if positive_delay sleep_s then time_sleep sleep_s else ret tt) ;;
       (if count mod 50 =? 0
        then eprint ("  ..." +:+ pretty count +:+ " projects processed")
        else ret tt) ;;
       ret count).
Proof.
  intros p count w rows0 Hf. unfold project_record, project_turn, scope_members, turn_end.
  destruct (p !! "id") as [p_id|] eqn:Hp; run; rewrite Hp; [| close_exact Hf].
  run. destruct (gl_projects_get gl p_id) as [proj|e]; run; [| close_exact Hf].
  destruct (String.eqb members_scope "all"); run.
  all: match goal with |- context [match ?l with Ret _ => _ | Raise _ => _ end] =>
         destruct l as [members_iter|e] end; run; [| close_exact Hf].
  all: destruct (attrs proj !! "id") as [proj_id|] eqn:Hid; run; [| close_exact Hf].
  all: destruct (format_members members_iter) as [summary|e]; run; [| close_exact Hf].
  all: destruct (positive_delay sleep_s), ((count + 1) mod 50 =? 0); run; close_exact Hf.
Qed.

Lemma groups_body_emits (gl : gitlab) (out : path) (members_scope : string)
    (sleep_s : Q) :
  body_emits out (group_record gl members_scope)
    (group_turn gl members_scope sleep_s)
    (λ g count,
       let count := count + 1 in
       let* g_id := getattr g "id" in
       let* grp := groups_get gl g_id in
       let* members_iter :=
         if String.eqb members_scope "all"
         then iter_all (members_all_list (ApiGroupMembers g_id true) grp) tt
         else iter_all (members_list (ApiGroupMembers g_id false) grp) tt in
       let* grp_id := getattr (attrs grp) "id" in
       let* members_summary := lift (format_members members_iter) in
       writerow {| dw_file := out; fieldnames := groups_fields |}
         (group_dict grp_id (attrs grp) members_summary) ;;
       (if positive_delay sleep_s then time_sleep sleep_s else ret tt) ;;
       (if count mod 100 =? 0
        then eprint ("  ..." +:+ pretty count +:+ " groups processed")
        else ret tt) ;;
       ret count).
Proof.
  intros g count w rows0 Hf. unfold group_record, group_turn, scope_members, turn_end.
  destruct (g !! "id") as [g_id|] eqn:Hg; run; rewrite Hg; [| close_exact Hf].
  run. destruct (gl_groups_get gl g_id) as [grp|e]; run; [| close_exact Hf].
  destruct (String.eqb members_scope "all"); run.
  all: match goal with |- context [match ?l with Ret _ => _ | Raise _ => _ end] =>
         destruct l as [members_iter|e] end; run; [| close_exact Hf].
  all: destruct (attrs grp !! "id") as [grp_id|] eqn:Hid; run; [| close_exact Hf].
  all: destruct (format_members members_iter) as [summary|e]; run; [| close_exact Hf].
  all: destruct (positive_delay sleep_s), ((count + 1) mod 100 =? 0); run; close_exact Hf.
Qed.

Lemma export_projects_events (gl : gitlab) (out : path) (archived : bool)
    (members_scope : string) (sleep_s : Q) (w : world) :
  let run := walk (project_record gl members_scope) (gl_projects_list gl archived) in
  export_projects gl out archived members_scope sleep_s w
  = (snd run, written out (projects_fields :: fst run)
                (projects_events gl out archived members_scope sleep_s) w).
Proof.
  intros run. unfold export_projects, projects_events.
  exact (exporter_events out projects_fields _ _ (ApiProjectsList archived) _ _ _ _
           (projects_body_emits gl out members_scope sleep_s) w).
Qed.

Lemma export_groups_events (gl : gitlab) (out : path) (members_scope : string)
    (sleep_s : Q) (w : world) :
  let run := walk (group_record gl members_scope) (gl_groups_list gl) in
  export_groups gl out members_scope sleep_s w
  = (snd run, written out (groups_fields :: fst run)
                (groups_events gl out members_scope sleep_s) w).
Proof.
  intros run. unfold export_groups, groups_events.
  exact (exporter_events out groups_fields _ _ ApiGroupsList _ _ _ _
           (groups_body_emits gl out members_scope sleep_s) w).
Qed.

Lemma export_users_events (gl : gitlab) (out : path) (sleep_s : Q) (w : world) :
  let run := walk (user_record gl) (gl_users_list gl) in
  export_users gl out sleep_s w
  = (snd run, written out (users_fields :: fst run) (users_events gl out sleep_s) w).
Proof.
  intros run. unfold export_users, users_events.
  exact (exporter_events out users_fields _ _ ApiUsersList _ _ _ _
           (users_body_emits gl out sleep_s) w).
Qed.

(** ** Projections of the events *)

Lemma api_calls_app (t1 t2 : list event) :
  api_calls (t1 ++ t2) = api_calls t1 ++ api_calls t2.
Proof. apply omap_app. Qed.

Lemma sleeps_app (t1 t2 : list event) : sleeps (t1 ++ t2) = sleeps t1 ++ sleeps t2.
Proof. apply omap_app. Qed.

Lemma stderr_lines_app (t1 t2 : list event) :
  stderr_lines (t1 ++ t2) = stderr_lines t1 ++ stderr_lines t2.
Proof. apply omap_app. Qed.

Lemma stdout_lines_app (t1 t2 : list event) :
  stdout_lines (t1 ++ t2) = stdout_lines t1 ++ stdout_lines t2.
Proof. apply omap_app. Qed.

Lemma api_calls_EvApi (cs : list api_call) : api_calls (EvApi <$> cs) = cs.
Proof.
  induction cs as [|c cs IH]; [done |].
  change (c :: api_calls (EvApi <$> cs) = c :: cs). by rewrite IH.
Qed.

Lemma sleeps_EvApi (cs : list api_call) : sleeps (EvApi <$> cs) = [].
Proof. induction cs as [|c cs IH]; [done |]. exact IH. Qed.

Lemma stderr_lines_EvApi (cs : list api_call) : stderr_lines (EvApi <$> cs) = [].
Proof. induction cs as [|c cs IH]; [done |]. exact IH. Qed.

Lemma api_calls_turn_end (sleep_s : Q) (every : Z) (noun : string) (count : Z) :
  api_calls (turn_end sleep_s every noun count) = [].
Proof. unfold turn_end. by destruct (positive_delay sleep_s), (count mod every =? 0). Qed.

Lemma sleeps_turn_end (sleep_s : Q) (every : Z) (noun : string) (count : Z) :
  sleeps (turn_end sleep_s every noun count)
  = if positive_delay sleep_s then [sleep_s] else [].
Proof. unfold turn_end. by destruct (positive_delay sleep_s), (count mod every =? 0). Qed.

Lemma stderr_lines_turn_end (sleep_s : Q) (every : Z) (noun : string) (count : Z) :
  stderr_lines (turn_end sleep_s every noun count)
  = if count mod every =? 0 then [progress_line noun count] else [].
Proof. unfold turn_end. by destruct (positive_delay sleep_s), (count mod every =? 0). Qed.

Lemma project_turn_shape (gl : gitlab) (members_scope : string) (sleep_s : Q) :
  turn_shape (project_record gl members_scope) (project_turn gl members_scope sleep_s)
    (project_calls members_scope) sleep_s 50 "projects".
Proof.
  intros p count. unfold project_record, project_turn, project_calls.
  repeat case_match; simplify_eq; done.
Qed.

Lemma group_turn_shape (gl : gitlab) (members_scope : string) (sleep_s : Q) :
  turn_shape (group_record gl members_scope) (group_turn gl members_scope sleep_s)
    (group_calls members_scope) sleep_s 100 "groups".
Proof.
  intros g count. unfold group_record, group_turn, group_calls.
  repeat case_match; simplify_eq; done.
Qed.

Lemma user_turn_shape (gl : gitlab) (sleep_s : Q) :
  turn_shape (user_record gl) (user_turn gl sleep_s) user_calls sleep_s 200 "users".
Proof.
  intros u count. unfold user_record, user_turn, user_calls.
  repeat case_match; simplify_eq; done.
Qed.

Lemma sleeps_loop (record : obj → outcome row) (turn : obj → Z → list event)
    (calls : obj → list api_call) (sleep_s : Q) (every : Z) (noun : string) :
  turn_shape record turn calls sleep_s every noun →
  ∀ it count,
    sleeps (loop_events record turn it count)
    = if positive_delay sleep_s
      then replicate (length (fst (walk_iter record it))) sleep_s
      else [].
Proof.
  intros Hshape it. induction it as [|x rest IH|e]; intros count; simpl.
  - by destruct (positive_delay sleep_s).
  - specialize (Hshape x count). rewrite sleeps_app. destruct (record x) as [r|e].
    + rewrite Hshape, sleeps_app, sleeps_EvApi, sleeps_turn_end, IH.
      destruct (walk_iter record rest) as [rows res]. simpl.
      by destruct (positive_delay sleep_s).
    + destruct Hshape as [-> _]. simpl. by destruct (positive_delay sleep_s).
  - by destruct (positive_delay sleep_s).
Qed.

Lemma progress_lines_S (every : Z) (noun : string) (count : Z) (n : nat) :
  progress_lines every noun count (S n)
  = (if (count + 1) mod every =? 0 then [progress_line noun (count + 1)] else [])
    ++ progress_lines every noun (count + 1) n.
Proof.
  unfold progress_lines. rewrite seqZ_cons by lia.
  replace (Z.pred (Z.of_nat (S n))) with (Z.of_nat n) by lia.
  replace (Z.succ (count + 1)) with (count + 1 + 1) by lia.
  simpl. by destruct ((count + 1) mod every =? 0).
Qed.

Lemma stderr_lines_loop (record : obj → outcome row) (turn : obj → Z → list event)
    (calls : obj → list api_call) (sleep_s : Q) (every : Z) (noun : string) :
  turn_shape record turn calls sleep_s every noun →
  ∀ it count,
    stderr_lines (loop_events record turn it count)
    = progress_lines every noun count (length (fst (walk_iter record it))).
Proof.
  intros Hshape it. induction it as [|x rest IH|e]; intros count; simpl; [done | | done].
  specialize (Hshape x count). rewrite stderr_lines_app. destruct (record x) as [r|e].
  - rewrite Hshape, stderr_lines_app, stderr_lines_EvApi, stderr_lines_turn_end, IH.
    destruct (walk_iter record rest) as [rows res]. simpl.
    by rewrite progress_lines_S.
  - by destruct Hshape as [_ ->].
Qed.

Lemma api_calls_loop (record : obj → outcome row) (turn : obj → Z → list event)
    (calls : obj → list api_call) (sleep_s : Q) (every : Z) (noun : string)
    (tail : pyiter) :
  turn_shape record turn calls sleep_s every noun →
  ∀ done rows count,
    Forall2 (λ x r, record x = Ret r) done rows →
    api_calls (loop_events record turn (iter_app done tail) count)
    = concat (calls <$> done)
      ++ api_calls (loop_events record turn tail (count + Z.of_nat (length done))).
Proof.
  intros Hshape done rows count Hdone. revert count.
  induction Hdone as [|x r done rows Hx _ IH]; intros count; simpl.
  - by rewrite Z.add_0_r.
  - specialize (Hshape x count). rewrite Hx in Hshape.
    rewrite Hx, api_calls_app, IH, Hshape, api_calls_app, api_calls_EvApi,
      api_calls_turn_end, app_nil_r, <- app_assoc.
    by replace (count + 1 + Z.of_nat (length done))
      with (count + Z.of_nat (S (length done))) by lia.
Qed.

Lemma calls_of_ids (calls : obj → list api_call) (of_id : pyval → list api_call)
    (xs : list obj) (ids : list pyval) :
  (∀ x i, x !! "id" = Some i → calls x = of_id i) →
  Forall2 (λ x i, x !! "id" = Some i) xs ids →
  concat (calls <$> xs) = concat (of_id <$> ids).
Proof.
  intros Hcalls. induction 1 as [|x i xs ids Hx _ IH]; simpl; [done |].
  rewrite (Hcalls x i Hx). f_equal. exact IH.
Qed.

Lemma api_calls_export (out : path) (msg1 msg2 : string) (c : api_call)
    (it : pyiter) (record : obj → outcome row) (turn : obj → Z → list event) :
  api_calls (export_events out msg1 msg2 c (Ret it) record turn)
  = c :: api_calls (loop_events record turn it 0).
Proof.
  unfold export_events. rewrite !api_calls_app.
  destruct (snd (walk_iter record it)); simpl; by rewrite app_nil_r.
Qed.

(** X11. An exporter whose walk completes makes one list call and then,
    for each listed entity in order, one detail call for its id and, for
    projects and groups, one member list call: for all members when the
    scope is [all], for direct members for any other scope. It makes no
    other call and repeats none. *)
Theorem one_fetch_per_entity (gl : gitlab) (out : path) (sleep_s : Q) (w : world)
    (xs : list obj) (ids : list pyval) (rows : list row) :
  Forall2 (λ x i, x !! "id" = Some i) xs ids →
  (∀ archived members_scope,
     gl_projects_list gl archived = Ret (iter_of xs) →
     Forall2 (λ p r, project_record gl members_scope p = Ret r) xs rows →
     ∃ w', export_projects gl out archived members_scope sleep_s w = (Ret tt, w')
           ∧ api_calls (trace w')
             = api_calls (trace w)
               ++ ApiProjectsList archived
                  :: concat ((λ i, [ApiProjectsGet i;
                                    ApiProjectMembers i (String.eqb members_scope "all")])
                             <$> ids))
  ∧ (∀ members_scope,
       gl_groups_list gl = Ret (iter_of xs) →
       Forall2 (λ g r, group_record gl members_scope g = Ret r) xs rows →
       ∃ w', export_groups gl out members_scope sleep_s w = (Ret tt, w')
             ∧ api_calls (trace w')
               = api_calls (trace w)
                 ++ ApiGroupsList
                    :: concat ((λ i, [ApiGroupsGet i;
                                      ApiGroupMembers i (String.eqb members_scope "all")])
                               <$> ids))
  ∧ (gl_users_list gl = Ret (iter_of xs) →
     Forall2 (λ u r, user_record gl u = Ret r) xs rows →
     ∃ w', export_users gl out sleep_s w = (Ret tt, w')
           ∧ api_calls (trace w')
             = api_calls (trace w) ++ ApiUsersList :: (ApiUsersGet <$> ids)).
Proof.
  intros Hids. split; [| split].
  - intros archived members_scope Hlist Hrows.
    pose proof (export_projects_events gl out archived members_scope sleep_s w) as Hrun.
    cbv zeta in Hrun. unfold projects_events in Hrun. rewrite Hlist in Hrun.
    simpl walk in Hrun. rewrite (walk_iter_of _ _ _ Hrows) in Hrun.
    eexists. split; [exact Hrun |]. unfold written. cbn [trace].
    rewrite api_calls_app, api_calls_export, iter_of_app.
    rewrite (api_calls_loop _ _ _ _ _ _ _ (project_turn_shape gl members_scope sleep_s)
               _ _ _ Hrows).
    simpl. rewrite app_nil_r. do 2 f_equal.
    apply calls_of_ids; [| done]. intros x i Hx. unfold project_calls. by rewrite Hx.
  - intros members_scope Hlist Hrows.
    pose proof (export_groups_events gl out members_scope sleep_s w) as Hrun.
    cbv zeta in Hrun. unfold groups_events in Hrun. rewrite Hlist in Hrun.
    simpl walk in Hrun. rewrite (walk_iter_of _ _ _ Hrows) in Hrun.
    eexists. split; [exact Hrun |]. unfold written. cbn [trace].
    rewrite api_calls_app, api_calls_export, iter_of_app.
    rewrite (api_calls_loop _ _ _ _ _ _ _ (group_turn_shape gl members_scope sleep_s)
               _ _ _ Hrows).
    simpl. rewrite app_nil_r. do 2 f_equal.
    apply calls_of_ids; [| done]. intros x i Hx. unfold group_calls. by rewrite Hx.
  - intros Hlist Hrows.
    pose proof (export_users_events gl out sleep_s w) as Hrun.
    cbv zeta in Hrun. unfold users_events in Hrun. rewrite Hlist in Hrun.
    simpl walk in Hrun. rewrite (walk_iter_of _ _ _ Hrows) in Hrun.
    eexists. split; [exact Hrun |]. unfold written. cbn [trace].
    rewrite api_calls_app, api_calls_export, iter_of_app.
    rewrite (api_calls_loop _ _ _ _ _ _ _ (user_turn_shape gl sleep_s) _ _ _ Hrows).
    simpl. rewrite app_nil_r. do 2 f_equal.
    rewrite (calls_of_ids user_calls (λ i, [ApiUsersGet i]) xs ids); [| | done].
    + clear. induction ids as [|i ids IH]; [done |]. simpl. f_equal. exact IH.
    + intros x i Hx. unfold user_calls. by rewrite Hx.
Qed.

Lemma one_fetch_per_entity_witness :
  ∃ w', export_users sample_gl ["out"; "users.csv"] 0 sample_world = (Ret tt, w')
        ∧ api_calls (trace w')
          = [ApiUsersList; ApiUsersGet (VInt 5); ApiUsersGet (VInt 6); ApiUsersGet (VInt 7)].
Proof.
  assert (Hids : Forall2 (λ (x : obj) i, x !! "id" = Some i)
                   [listed 5; listed 6; listed 7] [VInt 5; VInt 6; VInt 7])
    by repeat constructor.
  destruct (one_fetch_per_entity sample_gl ["out"; "users.csv"] 0 sample_world
              [listed 5; listed 6; listed 7] [VInt 5; VInt 6; VInt 7]
              [user_row "5"; user_row "6"; user_row "7"] Hids) as (_ & _ & Husers).
  apply Husers; [reflexivity |]. repeat constructor.
Defined.

(** X12. A call that raises is the last call of the exporter: it is not
    repeated, and no entity after it is fetched. This holds for the
    detail call of a user and of a project, and for the member list call
    of a project when that call itself raises. *)
Theorem failed_call_is_the_last (gl : gitlab) (out : path) (sleep_s : Q) (w : world)
    (done : list obj) (ids : list pyval) (x : obj) (x_id : pyval) (rest : pyiter)
    (e : exn) :
  Forall2 (λ y i, y !! "id" = Some i) done ids → x !! "id" = Some x_id →
  (∀ rows,
     gl_users_list gl = Ret (iter_app done (Yield x rest)) →
     Forall2 (λ u r, user_record gl u = Ret r) done rows →
     gl_users_get gl x_id = Raise e →
     ∃ w', export_users gl out sleep_s w = (Raise e, w')
           ∧ api_calls (trace w')
             = api_calls (trace w)
               ++ ApiUsersList :: (ApiUsersGet <$> ids) ++ [ApiUsersGet x_id])
  ∧ (∀ archived members_scope rows,
       gl_projects_list gl archived = Ret (iter_app done (Yield x rest)) →
       Forall2 (λ p r, project_record gl members_scope p = Ret r) done rows →
       let before :=
         concat ((λ i, [ApiProjectsGet i;
                        ApiProjectMembers i (String.eqb members_scope "all")]) <$> ids) in
       (gl_projects_get gl x_id = Raise e →
        ∃ w', export_projects gl out archived members_scope sleep_s w = (Raise e, w')
              ∧ api_calls (trace w')
                = api_calls (trace w)
                  ++ ApiProjectsList archived :: before ++ [ApiProjectsGet x_id])
       ∧ (∀ proj,
            gl_projects_get gl x_id = Ret proj →
            scope_members members_scope proj = Raise e →
            ∃ w', export_projects gl out archived members_scope sleep_s w = (Raise e, w')
                  ∧ api_calls (trace w')
                    = api_calls (trace w)
                      ++ ApiProjectsList archived
                         :: before
                            ++ [ApiProjectsGet x_id;
                                ApiProjectMembers x_id (String.eqb members_scope "all")])).
Proof.
  intros Hids Hx. split.
  - intros rows Hlist Hdone Hget.
    assert (Hrec : user_record gl x = Raise e).
    { unfold user_record. by rewrite Hx, Hget. }
    pose proof (export_users_events gl out sleep_s w) as Hrun.
    cbv zeta in Hrun. unfold users_events in Hrun. rewrite Hlist in Hrun.
    simpl walk in Hrun. rewrite (walk_iter_fault _ _ _ _ _ _ Hdone Hrec) in Hrun.
    eexists. split; [exact Hrun |]. unfold written. cbn [trace].
    rewrite api_calls_app, api_calls_export.
    rewrite (api_calls_loop _ _ _ _ _ _ _ (user_turn_shape gl sleep_s) _ _ _ Hdone).
    simpl. rewrite Hrec, app_nil_r. unfold user_turn. rewrite Hx, Hget.
    do 3 f_equal.
    rewrite (calls_of_ids user_calls (λ i, [ApiUsersGet i]) done ids); [| | done].
    + clear. induction ids as [|i ids IH]; [done |]. simpl. f_equal. exact IH.
    + intros y i Hy. unfold user_calls. by rewrite Hy.
  - intros archived members_scope rows Hlist Hdone before.
    assert (Hbefore : concat (project_calls members_scope <$> done) = before).
    { apply calls_of_ids; [| done]. intros y i Hy. unfold project_calls. by rewrite Hy. }
    pose proof (export_projects_events gl out archived members_scope sleep_s w) as Hrun.
    cbv zeta in Hrun. unfold projects_events in Hrun. rewrite Hlist in Hrun.
    simpl walk in Hrun.
    split.
    + intros Hget.
      assert (Hrec : project_record gl members_scope x = Raise e).
      { unfold project_record. by rewrite Hx, Hget. }
      rewrite (walk_iter_fault _ _ _ _ _ _ Hdone Hrec) in Hrun.
      eexists. split; [exact Hrun |]. unfold written. cbn [trace].
      rewrite api_calls_app, api_calls_export.
      rewrite (api_calls_loop _ _ _ _ _ _ _
                 (project_turn_shape gl members_scope sleep_s) _ _ _ Hdone).
      simpl. rewrite Hrec, app_nil_r, Hbefore. unfold project_turn. by rewrite Hx, Hget.
    + intros proj Hget Hmembers.
      assert (Hrec : project_record gl members_scope x = Raise e).
      { unfold project_record. by rewrite Hx, Hget, Hmembers. }
      rewrite (walk_iter_fault _ _ _ _ _ _ Hdone Hrec) in Hrun.
      eexists. split; [exact Hrun |]. unfold written. cbn [trace].
      rewrite api_calls_app, api_calls_export.
      rewrite (api_calls_loop _ _ _ _ _ _ _
                 (project_turn_shape gl members_scope sleep_s) _ _ _ Hdone).
      simpl. rewrite Hrec, app_nil_r, Hbefore. unfold project_turn.
      by rewrite Hx, Hget, Hmembers.
Qed.

Lemma failed_call_is_the_last_witness :
  ∃ w', export_projects stale_gl ["out"; "projects.csv"] false "direct" 0 sample_world
        = (Raise (GitlabError "404 Project Not Found"), w')
        ∧ api_calls (trace w')
          = [ApiProjectsList false; ApiProjectsGet (VInt 1);
             ApiProjectMembers (VInt 1) false; ApiProjectsGet (VInt 2)].
Proof.
  assert (Hids : Forall2 (λ (y : obj) i, y !! "id" = Some i) [listed 1] [VInt 1])
    by repeat constructor.
  destruct (failed_call_is_the_last stale_gl ["out"; "projects.csv"] 0 sample_world
              [listed 1] [VInt 1] (listed 2) (VInt 2) StopIteration
              (GitlabError "404 Project Not Found") Hids eq_refl) as [_ Hprojects].
  destruct (Hprojects false "direct" [demo_row]) as [Hget _];
    [reflexivity | repeat constructor |].
  apply Hget. reflexivity.
Defined.

(** ** Pauses and notices of an exporter *)

Lemma positive_delay_spec (sleep_s : Q) :
  positive_delay sleep_s = true ↔ (0 < sleep_s)%Q.
Proof.
  unfold positive_delay. rewrite negb_true_iff. split.
  - intros Hle. apply Qnot_le_lt. intros Hle'%Qle_bool_iff. congruence.
  - intros Hlt. destruct (Qle_bool sleep_s 0) eqn:Hle; [| done].
    apply Qle_bool_iff in Hle. by apply Qlt_not_le in Hlt.
Qed.

Lemma sleeps_export (out : path) (msg1 msg2 : string) (c : api_call)
    (listing : outcome pyiter) (record : obj → outcome row)
    (turn : obj → Z → list event) (calls : obj → list api_call)
    (sleep_s : Q) (every : Z) (noun : string) :
  turn_shape record turn calls sleep_s every noun →
  sleeps (export_events out msg1 msg2 c listing record turn)
  = if positive_delay sleep_s
    then replicate (length (fst (walk record listing))) sleep_s
    else [].
Proof.
  intros Hshape. unfold export_events. rewrite sleeps_app. simpl.
  destruct listing as [it|e]; simpl; [| by destruct (positive_delay sleep_s)].
  rewrite sleeps_app, (sleeps_loop _ _ _ _ _ _ Hshape).
  destruct (snd (walk_iter record it)); simpl; by rewrite app_nil_r.
Qed.

Lemma stderr_lines_export (out : path) (msg1 msg2 : string) (c : api_call)
    (listing : outcome pyiter) (record : obj → outcome row)
    (turn : obj → Z → list event) (calls : obj → list api_call)
    (sleep_s : Q) (every : Z) (noun : string) :
  turn_shape record turn calls sleep_s every noun →
  stderr_lines (export_events out msg1 msg2 c listing record turn)
  = msg1 :: progress_lines every noun 0 (length (fst (walk record listing)))
    ++ match snd (walk record listing) with Ret _ => [msg2] | Raise _ => [] end.
Proof.
  intros Hshape. unfold export_events. rewrite stderr_lines_app.
  change (stderr_lines [EvStderr msg1; EvOpen out; EvApi c]) with [msg1].
  simpl. f_equal. destruct listing as [it|e]; simpl; [| done].
  rewrite stderr_lines_app, (stderr_lines_loop _ _ _ _ _ _ Hshape). f_equal.
  by destruct (snd (walk_iter record it)).
Qed.

(** The counts up to [n] that are due a notice are the multiples of
    [every], in increasing order. *)
Lemma progress_lines_multiples (every : Z) (noun : string) (n : nat) :
  0 < every →
  progress_lines every noun 0 n
  = progress_line noun <$> ((λ k, every * k) <$> seqZ 1 (Z.of_nat n / every)).
Proof.
  intros Hevery. unfold progress_lines. f_equal. simpl.
  induction n as [|n IH].
  - by rewrite Z.div_0_l by lia.
  - replace (Z.of_nat (S n)) with (Z.of_nat n + 1) by lia.
    rewrite seqZ_app by lia. rewrite List.filter_app, IH. simpl.
    replace (Z.of_nat 0 + (0 + 1 + Z.of_nat n)) with (1 + Z.of_nat n) by lia.
    pose proof (Z.div_mod (Z.of_nat n) every ltac:(lia)) as Hn.
    pose proof (Z.mod_pos_bound (Z.of_nat n) every Hevery) as Hr.
    pose proof (Z.div_pos (Z.of_nat n) every ltac:(lia) Hevery) as Hq.
    destruct ((1 + Z.of_nat n) mod every =? 0) eqn:Hmod.
    + apply Z.eqb_eq in Hmod.
      assert (Hfull : Z.of_nat n mod every + 1 = every).
      { destruct (decide (Z.of_nat n mod every + 1 < every)) as [Hlt|]; [| lia].
        rewrite Hn in Hmod.
        replace (1 + (every * (Z.of_nat n / every) + Z.of_nat n mod every))
          with (Z.of_nat n mod every + 1 + Z.of_nat n / every * every) in Hmod by lia.
        rewrite Z.mod_add, Z.mod_small in Hmod by lia. lia. }
      assert (Hdiv : (Z.of_nat n + 1) / every = Z.of_nat n / every + 1).
      { symmetry. apply Z.div_unique with 0; lia. }
      rewrite Hdiv, seqZ_app by lia.
      rewrite fmap_app. simpl. do 2 f_equal. lia.
    + apply Z.eqb_neq in Hmod. rewrite app_nil_r.
      assert (Hpart : Z.of_nat n mod every + 1 < every).
      { destruct (decide (Z.of_nat n mod every + 1 = every)) as [Heq|]; [| lia].
        exfalso. apply Hmod.
        replace (1 + Z.of_nat n) with ((Z.of_nat n / every + 1) * every) by lia.
        apply Z.mod_mul. lia. }
      assert (Hdiv : (Z.of_nat n + 1) / every = Z.of_nat n / every).
      { symmetry. apply Z.div_unique with (Z.of_nat n mod every + 1); lia. }
      by rewrite Hdiv.
Qed.

(** X13. An exporter pauses exactly when the delay is positive, and then
    once after each row it writes, for the delay given: the pauses of a
    run are as many as the data rows in its file, whether the run
    completed or raised. With a zero or negative delay it never pauses. *)
Theorem one_pause_per_row (gl : gitlab) (out : path) (sleep_s : Q) (w : world) :
  (positive_delay sleep_s = true ↔ (0 < sleep_s)%Q)
  ∧ (∀ archived members_scope,
       let w' := snd (export_projects gl out archived members_scope sleep_s w) in
       ∃ rows, files w' !! out = Some (projects_fields :: rows)
               ∧ sleeps (trace w')
                 = sleeps (trace w)
                   ++ if positive_delay sleep_s
                      then replicate (length rows) sleep_s else [])
  ∧ (∀ members_scope,
       let w' := snd (export_groups gl out members_scope sleep_s w) in
       ∃ rows, files w' !! out = Some (groups_fields :: rows)
               ∧ sleeps (trace w')
                 = sleeps (trace w)
                   ++ if positive_delay sleep_s
                      then replicate (length rows) sleep_s else [])
  ∧ (let w' := snd (export_users gl out sleep_s w) in
     ∃ rows, files w' !! out = Some (users_fields :: rows)
             ∧ sleeps (trace w')
               = sleeps (trace w)
                 ++ if positive_delay sleep_s
                    then replicate (length rows) sleep_s else []).
Proof.
  split; [apply positive_delay_spec |]. split; [| split].
  - intros archived members_scope.
    rewrite (export_projects_events gl out archived members_scope sleep_s w).
    eexists. unfold written. cbn [snd files trace].
    split; [apply lookup_insert_eq |]. rewrite sleeps_app. f_equal.
    apply (sleeps_export _ _ _ _ _ _ _ _ _ _ _
             (project_turn_shape gl members_scope sleep_s)).
  - intros members_scope.
    rewrite (export_groups_events gl out members_scope sleep_s w).
    eexists. unfold written. cbn [snd files trace].
    split; [apply lookup_insert_eq |]. rewrite sleeps_app. f_equal.
    apply (sleeps_export _ _ _ _ _ _ _ _ _ _ _
             (group_turn_shape gl members_scope sleep_s)).
  - rewrite (export_users_events gl out sleep_s w).
    eexists. unfold written. cbn [snd files trace].
    split; [apply lookup_insert_eq |]. rewrite sleeps_app. f_equal.
    apply (sleeps_export _ _ _ _ _ _ _ _ _ _ _ (user_turn_shape gl sleep_s)).
Qed.

(** X14. The lines an exporter writes on stderr are: the announcement
    with the name of its file; then one progress notice at every 50th
    project, 100th group or 200th user whose row was written, in
    increasing order, each giving the count reached; then, only when the
    run completed, the closing line with the path of the file. Nothing
    else is written on stderr, and nothing when an error ends the run. *)
Theorem progress_notices (gl : gitlab) (out : path) (sleep_s : Q) (w : world) :
  (∀ archived members_scope,
     let run := export_projects gl out archived members_scope sleep_s w in
     ∃ rows, files (snd run) !! out = Some (projects_fields :: rows)
             ∧ stderr_lines (trace (snd run))
               = stderr_lines (trace w)
                 ++ ["Exporting "
                     +:+ (if archived then "archived projects" else "active projects")
                     +:+ " -> " +:+ path_name out +:+ " ..."]
                 ++ ((λ k, "  ..." +:+ pretty (50 * k) +:+ " projects processed")
                     <$> seqZ 1 (Z.of_nat (length rows) / 50))
                 ++ match fst run with
                    | Ret _ => ["Projects export complete: " +:+ path_str out]
                    | Raise _ => []
                    end)
  ∧ (∀ members_scope,
       let run := export_groups gl out members_scope sleep_s w in
       ∃ rows, files (snd run) !! out = Some (groups_fields :: rows)
               ∧ stderr_lines (trace (snd run))
                 = stderr_lines (trace w)
                   ++ ["Exporting groups -> " +:+ path_name out +:+ " ..."]
                   ++ ((λ k, "  ..." +:+ pretty (100 * k) +:+ " groups processed")
                       <$> seqZ 1 (Z.of_nat (length rows) / 100))
                   ++ match fst run with
                      | Ret _ => ["Groups export complete: " +:+ path_str out]
                      | Raise _ => []
                      end)
  ∧ (let run := export_users gl out sleep_s w in
     ∃ rows, files (snd run) !! out = Some (users_fields :: rows)
             ∧ stderr_lines (trace (snd run))
               = stderr_lines (trace w)
                 ++ ["Exporting users -> " +:+ path_name out +:+ " ..."]
                 ++ ((λ k, "  ..." +:+ pretty (200 * k) +:+ " users processed")
                     <$> seqZ 1 (Z.of_nat (length rows) / 200))
                 ++ match fst run with
                    | Ret _ => ["Users export complete: " +:+ path_str out]
                    | Raise _ => []
                    end).
Proof.
  split; [| split].
  - intros archived members_scope.
    rewrite (export_projects_events gl out archived members_scope sleep_s w).
    eexists. unfold written. cbn [fst snd files trace].
    split; [apply lookup_insert_eq |]. rewrite stderr_lines_app. f_equal.
    unfold projects_events.
    rewrite (stderr_lines_export _ _ _ _ _ _ _ _ _ _ _
               (project_turn_shape gl members_scope sleep_s)).
    rewrite progress_lines_multiples by lia. by rewrite <- list_fmap_compose.
  - intros members_scope.
    rewrite (export_groups_events gl out members_scope sleep_s w).
    eexists. unfold written. cbn [fst snd files trace].
    split; [apply lookup_insert_eq |]. rewrite stderr_lines_app. f_equal.
    unfold groups_events.
    rewrite (stderr_lines_export _ _ _ _ _ _ _ _ _ _ _
               (group_turn_shape gl members_scope sleep_s)).
    rewrite progress_lines_multiples by lia. by rewrite <- list_fmap_compose.
  - rewrite (export_users_events gl out sleep_s w).
    eexists. unfold written. cbn [fst snd files trace].
    split; [apply lookup_insert_eq |]. rewrite stderr_lines_app. f_equal.
    unfold users_events.
    rewrite (stderr_lines_export _ _ _ _ _ _ _ _ _ _ _ (user_turn_shape gl sleep_s)).
    rewrite progress_lines_multiples by lia. by rewrite <- list_fmap_compose.
Qed.

(** ** What a run of the orchestrator leaves alone *)

Lemma lookup_stage_output_cases (fs : gmap path (list row)) (sts : list stage) (p : path) :
  foldl stage_output fs sts !! p = fs !! p ∨ p ∈ st_file <$> sts.
Proof.
  destruct (decide (p ∈ st_file <$> sts)) as [Hin | Hout]; [by right | left].
  by apply lookup_stage_output_ne.
Qed.

Lemma stage_output_keeps (fs : gmap path (list row)) (sts : list stage) (p : path) :
  is_Some (fs !! p) → is_Some (foldl stage_output fs sts !! p).
Proof.
  revert fs. induction sts as [|st sts IH]; intros fs Hp; [done |].
  simpl. apply IH. unfold stage_output.
  destruct (decide (st_file st = p)) as [-> | Hne].
  - by rewrite lookup_insert_eq.
  - by rewrite lookup_insert_ne.
Qed.

(** Every run of [main] ends in one of four ways. *)
Lemma main_cases (net : network) (args : Args) (w : world) :
  let gl := net (url args) (token args) (negb (no_ssl_verify args)) in
  let out := run_outdir args w in
  (∃ line, main net args w
           = (Raise (SystemExit 2),
              World (files w) (dirs w) (clock w) (trace w ++ [EvStderr line])))
  ∨ (∃ e line, main net args w
               = (Raise e, World (files w) ({[out]} ∪ dirs w) (clock w)
                             (trace w ++ [EvMkdir out; EvStderr line; EvApi ApiAuth])))
  ∨ (∃ t, main net args w
          = (Ret tt, World (foldl stage_output (files w) (stages gl args out))
                       ({[out]} ∪ dirs w) (clock w)
                       (trace w ++ t ++ [EvStdout (path_str out)])))
  ∨ (∃ before st after e t,
       stages gl args out = before ++ st :: after
       ∧ main net args w
         = (Raise e, World (foldl stage_output (files w) (before ++ [st]))
                       ({[out]} ∪ dirs w) (clock w) (trace w ++ t))).
Proof.
  intros gl out.
  destruct (decide (url args = "")) as [Hu | Hurl].
  { left. apply main_config_error. by left. }
  destruct (decide (token args = "")) as [Ht | Htoken].
  { left. apply main_config_error. by right. }
  right. destruct (gl_auth gl) as [[]|e] eqn:Hauth.
  2: { left. destruct (main_auth_fails net args w e Hurl Htoken Hauth) as [line Hrun].
       by exists e, line. }
  right. destruct (first_failure (stages gl args out))
    as [Hok | (before & st & after & e & Hsts & Hok & He)].
  - left. destruct (main_completes net args w Hurl Htoken Hauth Hok) as (t & Hrun & _).
    by exists t.
  - right.
    destruct (main_aborts net args w before after st e Hurl Htoken Hauth Hsts Hok He)
      as (t & Hrun & _).
    by exists before, st, after, e, t.
Qed.

(** X15. Whatever the arguments, the server's answers and the way the
    run ends, [main] changes no file other than [projects.csv],
    [groups.csv] and [users.csv] of its output directory, and
    [archived_projects.csv] there only when archived projects were asked
    for; and it removes no file. *)
Theorem main_touches_only_its_files (net : network) (args : Args) (w : world) :
  let w' := snd (main net args w) in
  let out := run_outdir args w in
  (∀ p, files w' !! p = files w !! p
        ∨ p ∈ [path_div out "projects.csv"]
              ++ (if include_archived args
                  then [path_div out "archived_projects.csv"] else [])
              ++ [path_div out "groups.csv"; path_div out "users.csv"])
  ∧ (∀ p, is_Some (files w !! p) → is_Some (files w' !! p)).
Proof.
  intros w' out. subst w'.
  set (gl := net (url args) (token args) (negb (no_ssl_verify args))).
  rewrite <- (stage_files gl args out).
  destruct (main_cases net args w)
    as [[line ->] | [(e & line & ->) | [[t ->] | (before & st & after & e & t & Hsts & ->)]]];
    cbn [snd files].
  - split; [by left | done].
  - split; [by left | done].
  - split; [apply lookup_stage_output_cases | intros p; apply stage_output_keeps].
  - split; [| intros p; apply stage_output_keeps].
    intros p. destruct (lookup_stage_output_cases (files w) (before ++ [st]) p)
      as [Hsame | Hin]; [by left | right].
    fold gl out in Hsts. rewrite Hsts.
    rewrite fmap_app, elem_of_app in Hin. rewrite fmap_app, fmap_cons, elem_of_app.
    destruct Hin as [Hin | Hin]; [by left | right].
    apply list_elem_of_singleton in Hin as ->. apply elem_of_cons. by left.
Qed.

(** ** What a run prints *)

Lemma stdout_lines_turn_end (sleep_s : Q) (every : Z) (noun : string) (count : Z) :
  stdout_lines (turn_end sleep_s every noun count) = [].
Proof. unfold turn_end. by destruct (positive_delay sleep_s), (count mod every =? 0). Qed.

Lemma stdout_lines_loop (record : obj → outcome row) (turn : obj → Z → list event) :
  (∀ x count, stdout_lines (turn x count) = []) →
  ∀ it count, stdout_lines (loop_events record turn it count) = [].
Proof.
  intros Hturn it. induction it as [|x rest IH|e]; intros count; simpl; [done | | done].
  rewrite stdout_lines_app, Hturn. simpl. by destruct (record x).
Qed.

Lemma stdout_lines_export (out : path) (msg1 msg2 : string) (c : api_call)
    (listing : outcome pyiter) (record : obj → outcome row)
    (turn : obj → Z → list event) :
  (∀ x count, stdout_lines (turn x count) = []) →
  stdout_lines (export_events out msg1 msg2 c listing record turn) = [].
Proof.
  intros Hturn. unfold export_events. rewrite stdout_lines_app. simpl.
  destruct listing as [it|e]; [| done].
  rewrite stdout_lines_app, (stdout_lines_loop _ _ Hturn). simpl.
  by destruct (snd (walk_iter record it)).
Qed.

Lemma project_turn_stdout (gl : gitlab) (members_scope : string) (sleep_s : Q)
    (p : obj) (count : Z) :
  stdout_lines (project_turn gl members_scope sleep_s p count) = [].
Proof.
  unfold project_turn. repeat case_match; simpl; try done; apply stdout_lines_turn_end.
Qed.

Lemma group_turn_stdout (gl : gitlab) (members_scope : string) (sleep_s : Q)
    (g : obj) (count : Z) :
  stdout_lines (group_turn gl members_scope sleep_s g count) = [].
Proof.
  unfold group_turn. repeat case_match; simpl; try done; apply stdout_lines_turn_end.
Qed.

Lemma user_turn_stdout (gl : gitlab) (sleep_s : Q) (u : obj) (count : Z) :
  stdout_lines (user_turn gl sleep_s u count) = [].
Proof.
  unfold user_turn. repeat case_match; simpl; try done; apply stdout_lines_turn_end.
Qed.

Lemma export_projects_quiet (gl : gitlab) (out : path) (archived : bool)
    (members_scope : string) (sleep_s : Q) :
  quiet (export_projects gl out archived members_scope sleep_s).
Proof.
  intros w. rewrite (export_projects_events gl out archived members_scope sleep_s w).
  unfold written. cbn [snd trace]. rewrite stdout_lines_app. unfold projects_events.
  rewrite stdout_lines_export; [by rewrite app_nil_r |]. apply project_turn_stdout.
Qed.

Lemma export_groups_quiet (gl : gitlab) (out : path) (members_scope : string)
    (sleep_s : Q) :
  quiet (export_groups gl out members_scope sleep_s).
Proof.
  intros w. rewrite (export_groups_events gl out members_scope sleep_s w).
  unfold written. cbn [snd trace]. rewrite stdout_lines_app. unfold groups_events.
  rewrite stdout_lines_export; [by rewrite app_nil_r |]. apply group_turn_stdout.
Qed.

Lemma export_users_quiet (gl : gitlab) (out : path) (sleep_s : Q) :
  quiet (export_users gl out sleep_s).
Proof.
  intros w. rewrite (export_users_events gl out sleep_s w).
  unfold written. cbn [snd trace]. rewrite stdout_lines_app. unfold users_events.
  rewrite stdout_lines_export; [by rewrite app_nil_r |]. apply user_turn_stdout.
Qed.

Lemma exporters_quiet (gl : gitlab) (args : Args) (out : path) :
  Forall quiet (exporters gl args out).
Proof.
  unfold exporters. destruct (include_archived args); simpl; repeat constructor.
  all: first [ apply export_projects_quiet | apply export_groups_quiet
             | apply export_users_quiet ].
Qed.

(** A chain of quiet computations reaches its continuation with nothing
    printed, or ends before it with nothing printed. *)
Lemma chain_quiet {A} (cs : list (M unit)) (k : M A) :
  Forall quiet cs →
  ∀ w, ∃ w1, stdout_lines (trace w1) = stdout_lines (trace w)
             ∧ (chain cs k w = k w1 ∨ ∃ e, chain cs k w = (Raise e, w1)).
Proof.
  induction 1 as [|c cs Hc _ IH]; intros w.
  - exists w. split; [done | by left].
  - assert (Hstep : chain (c :: cs) k w
                    = match c w with
                      | (Ret _, w') => chain cs k w'
                      | (Raise e, w') => (Raise e, w')
                      end) by reflexivity.
    rewrite Hstep. clear Hstep.
    specialize (Hc w). destruct (c w) as [[[]|e] w1]; simpl in Hc.
    + destruct (IH w1) as (w2 & Hout & Hrun). exists w2. split; [congruence | exact Hrun].
    + exists w1. split; [done | right; by exists e].
Qed.

Lemma main_runs_exporters (net : network) (args : Args) (w : world) :
  url args ≠ "" → token args ≠ "" →
  let gl := net (url args) (token args) (negb (no_ssl_verify args)) in
  let out := run_outdir args w in
  gl_auth gl = Ret tt →
  ∃ line, main net args w
          = chain (exporters gl args out) (print (path_str out))
              (World (files w) ({[out]} ∪ dirs w) (clock w)
                 (trace w ++ [EvMkdir out; EvStderr line; EvApi ApiAuth])).
Proof.
  intros Hurl Htoken gl out Hauth. eexists.
  unfold main. rewrite (nonempty_truthy _ Hurl), (nonempty_truthy _ Htoken).
  simpl negb. cbv iota. subst out. unfold run_outdir, make_gitlab_client, exporters.
  fold gl. destruct (truthy (VStr (outdir args))); run; rewrite Hauth; run.
  all: rewrite <- !app_assoc; simpl.
  all: destruct (include_archived args); reflexivity.
Qed.

(** X16. [main] prints one line on stdout, the output directory, and it
    does so exactly when the run returns: a run that ends with an error,
    of the configuration, of the connection or of an exporter, prints
    nothing on stdout. *)
Theorem main_prints_outdir_on_return (net : network) (args : Args) (w : world) :
  let run := main net args w in
  stdout_lines (trace (snd run))
  = stdout_lines (trace w)
    ++ match fst run with
       | Ret _ => [path_str (run_outdir args w)]
       | Raise _ => []
       end.
Proof.
  intros run. subst run.
  destruct (decide (url args = "")) as [Hu | Hurl].
  { destruct (main_config_error net args w (or_introl Hu)) as [line ->].
    cbn [fst snd trace]. rewrite stdout_lines_app. done. }
  destruct (decide (token args = "")) as [Ht | Htoken].
  { destruct (main_config_error net args w (or_intror Ht)) as [line ->].
    cbn [fst snd trace]. rewrite stdout_lines_app. done. }
  destruct (gl_auth (net (url args) (token args) (negb (no_ssl_verify args))))
    as [[]|e] eqn:Hauth.
  2: { destruct (main_auth_fails net args w e Hurl Htoken Hauth) as [line ->].
       cbn [fst snd trace]. rewrite stdout_lines_app. done. }
  destruct (main_runs_exporters net args w Hurl Htoken Hauth) as [line ->].
  match goal with |- context [chain ?cs ?k ?w0] =>
    destruct (chain_quiet cs k (exporters_quiet _ _ _) w0)
      as (w1 & Hout & [-> | [e ->]])
  end; cbn [fst snd trace print emit] in *.
  - rewrite stdout_lines_app, Hout, stdout_lines_app. simpl. by rewrite app_nil_r.
  - rewrite Hout, stdout_lines_app. done.
Qed.

(** ** Errors of the API *)

Lemma api_calls_export_fault (out : path) (msg1 msg2 : string) (c : api_call)
    (listing : outcome pyiter) (record : obj → outcome row)
    (turn : obj → Z → list event) (calls : obj → list api_call)
    (sleep_s : Q) (every : Z) (noun : string)
    (done : list obj) (rows : list row) (e : exn) :
  turn_shape record turn calls sleep_s every noun →
  Forall2 (λ x r, record x = Ret r) done rows →
  raises_after listing done e →
  api_calls (export_events out msg1 msg2 c listing record turn)
  = c :: concat (calls <$> done).
Proof.
  intros Hshape Hdone [[-> ->] | ->]; [done |].
  rewrite api_calls_export, (api_calls_loop _ _ _ _ _ _ _ Hshape _ _ _ Hdone).
  simpl. by rewrite app_nil_r.
Qed.

Lemma api_calls_export_turn_fault (out : path) (msg1 msg2 : string) (c : api_call)
    (record : obj → outcome row) (turn : obj → Z → list event)
    (calls : obj → list api_call) (sleep_s : Q) (every : Z) (noun : string)
    (done : list obj) (rows : list row) (x : obj) (rest : pyiter) (e : exn) :
  turn_shape record turn calls sleep_s every noun →
  Forall2 (λ y r, record y = Ret r) done rows →
  record x = Raise e →
  api_calls (export_events out msg1 msg2 c (Ret (iter_app done (Yield x rest))) record turn)
  = c :: concat (calls <$> done) ++ api_calls (turn x (0 + Z.of_nat (length done))).
Proof.
  intros Hshape Hdone Hx.
  rewrite api_calls_export, (api_calls_loop _ _ _ _ _ _ _ Hshape _ _ _ Hdone).
  simpl. by rewrite Hx, app_nil_r.
Qed.

Lemma raises_after_walk (record : obj → outcome row) (listing : outcome pyiter)
    (done : list obj) (rows : list row) (e : exn) :
  Forall2 (λ x r, record x = Ret r) done rows →
  raises_after listing done e →
  walk record listing = (rows, Raise e).
Proof.
  intros Hdone [[-> ->] | ->]; simpl.
  - by apply Forall2_nil_inv_l in Hdone as ->.
  - rewrite (walk_iter_app _ _ _ _ Hdone). simpl. by rewrite app_nil_r.
Qed.

(** A chain that raises within its first [n] computations is these
    computations alone: what follows them does not run. *)
Lemma chain_cut {A} (cs : list (M unit)) (k : M A) (n : nat) (w : world) (e : exn) :
  fst (chain (take n cs) (ret tt) w) = Raise e →
  chain cs k w = (Raise e, snd (chain (take n cs) (ret tt) w)).
Proof.
  revert n w. induction cs as [|c cs IH]; intros n w.
  - by rewrite take_nil.
  - destruct n as [|n]; [done |].
    change (take (S n) (c :: cs)) with (c :: take n cs).
    assert (Hstep : ∀ B (l : list (M unit)) (k' : M B),
              chain (c :: l) k' w
              = match c w with
                | (Ret _, w') => chain l k' w'
                | (Raise e', w') => (Raise e', w')
                end) by reflexivity.
    rewrite !Hstep. destruct (c w) as [[[]|e'] w1]; [apply IH |].
    simpl. by intros [= ->].
Qed.

(** C7. Nothing in the exporters or in [main] catches an error of the
    API, and no call is made again after it raised. For each exporter
    and each kind of error (the list call or the fetch of a later page;
    the detail call of a listed entity; for projects and groups the
    member list call, or the fetch of a later page of members) the
    exporter ends with that error; its file keeps the header and the
    rows of the entities handled before; and its API calls are the list
    call, the calls of the entities handled before, each made once, and
    then the calls of the failing entity up to the one that raised, each
    made once: the failing call is not repeated and nothing is called
    after it. In [main], when a stage raises after the stages before it
    completed, [main] ends with that error: the run is the directory
    made, the connection, and then the exporters up to the failing one,
    each run once; the files of the completed stages and of the failed
    one hold what these stages wrote, no later stage opens its file or
    lists its collection, and every other file is untouched. *)
Theorem errors_abort_the_run :
  (∀ gl out archived members_scope sleep_s w done ids rows e,
     Forall2 (λ p i, p !! "id" = Some i) done ids →
     Forall2 (λ p r, project_record gl members_scope p = Ret r) done rows →
     let inherited := String.eqb members_scope "all" in
     let aborted (failing : list api_call) :=
       ∃ w', export_projects gl out archived members_scope sleep_s w = (Raise e, w')
             ∧ files w' = <[out := projects_fields :: rows]> (files w)
             ∧ api_calls (trace w')
               = api_calls (trace w)
                 ++ ApiProjectsList archived
                    :: concat ((λ i, [ApiProjectsGet i; ApiProjectMembers i inherited])
                               <$> ids)
                    ++ failing in
     (raises_after (gl_projects_list gl archived) done e → aborted [])
     ∧ (∀ p rest p_id,
          gl_projects_list gl archived = Ret (iter_app done (Yield p rest)) →
          p !! "id" = Some p_id →
          (gl_projects_get gl p_id = Raise e → aborted [ApiProjectsGet p_id])
          ∧ (∀ proj,
               gl_projects_get gl p_id = Ret proj →
               scope_members members_scope proj = Raise e
               ∨ (is_Some (attrs proj !! "id")
                  ∧ ∃ seen, scope_members members_scope proj
                            = Ret (iter_app seen (Raises e))) →
               aborted [ApiProjectsGet p_id; ApiProjectMembers p_id inherited])))
  ∧ (∀ gl out members_scope sleep_s w done ids rows e,
       Forall2 (λ g i, g !! "id" = Some i) done ids →
       Forall2 (λ g r, group_record gl members_scope g = Ret r) done rows →
       let inherited := String.eqb members_scope "all" in
       let aborted (failing : list api_call) :=
         ∃ w', export_groups gl out members_scope sleep_s w = (Raise e, w')
               ∧ files w' = <[out := groups_fields :: rows]> (files w)
               ∧ api_calls (trace w')
                 = api_calls (trace w)
                   ++ ApiGroupsList
                      :: concat ((λ i, [ApiGroupsGet i; ApiGroupMembers i inherited])
                                 <$> ids)
                      ++ failing in
       (raises_after (gl_groups_list gl) done e → aborted [])
       ∧ (∀ g rest g_id,
            gl_groups_list gl = Ret (iter_app done (Yield g rest)) →
            g !! "id" = Some g_id →
            (gl_groups_get gl g_id = Raise e → aborted [ApiGroupsGet g_id])
            ∧ (∀ grp,
                 gl_groups_get gl g_id = Ret grp →
                 scope_members members_scope grp = Raise e
                 ∨ (is_Some (attrs grp !! "id")
                    ∧ ∃ seen, scope_members members_scope grp
                              = Ret (iter_app seen (Raises e))) →
                 aborted [ApiGroupsGet g_id; ApiGroupMembers g_id inherited])))
  ∧ (∀ gl out sleep_s w done ids rows e,
       Forall2 (λ u i, u !! "id" = Some i) done ids →
       Forall2 (λ u r, user_record gl u = Ret r) done rows →
       let aborted (failing : list api_call) :=
         ∃ w', export_users gl out sleep_s w = (Raise e, w')
               ∧ files w' = <[out := users_fields :: rows]> (files w)
               ∧ api_calls (trace w')
                 = api_calls (trace w)
                   ++ ApiUsersList :: (ApiUsersGet <$> ids) ++ failing in
       (raises_after (gl_users_list gl) done e → aborted [])
       ∧ (∀ u rest u_id,
            gl_users_list gl = Ret (iter_app done (Yield u rest)) →
            u !! "id" = Some u_id →
            gl_users_get gl u_id = Raise e → aborted [ApiUsersGet u_id]))
  ∧ (∀ net args w before st after e,
       url args ≠ "" → token args ≠ "" →
       let gl := net (url args) (token args) (negb (no_ssl_verify args)) in
       let out := run_outdir args w in
       gl_auth gl = Ret tt →
       stages gl args out = before ++ st :: after →
       Forall completes before → snd (st_walk st) = Raise e →
       ∃ w' t line,
         main net args w = (Raise e, w')
         ∧ chain (take (S (length before)) (exporters gl args out)) (ret tt)
             (World (files w) ({[out]} ∪ dirs w) (clock w)
                (trace w ++ [EvMkdir out; EvStderr line; EvApi ApiAuth]))
           = (Raise e, w')
         ∧ trace w' = trace w ++ t
         ∧ opens t = st_file <$> before ++ [st]
         ∧ milestones t = concat (stage_marks <$> before ++ [st])
         ∧ files w' !! st_file st = Some (st_header st :: fst (st_walk st))
         ∧ (∀ b, b ∈ before →
                 files w' !! st_file b = Some (st_header b :: fst (st_walk b)))
         ∧ (∀ p, p ∉ st_file <$> before ++ [st] → files w' !! p = files w !! p)).
Proof.
  split; [| split; [| split]].
  - intros gl out archived members_scope sleep_s w done ids rows e Hids Hdone
      inherited aborted.
    pose proof (export_projects_events gl out archived members_scope sleep_s w) as Hrun.
    cbv zeta in Hrun. unfold projects_events in Hrun.
    pose proof (project_turn_shape gl members_scope sleep_s) as Hshape.
    assert (Hbefore : concat (project_calls members_scope <$> done)
                      = concat ((λ i, [ApiProjectsGet i; ApiProjectMembers i inherited])
                                <$> ids)).
    { apply calls_of_ids; [| done]. intros y i Hy. unfold project_calls. by rewrite Hy. }
    assert (Hturn : ∀ p rest failing,
              gl_projects_list gl archived = Ret (iter_app done (Yield p rest)) →
              project_record gl members_scope p = Raise e →
              (∀ count, api_calls (project_turn gl members_scope sleep_s p count) = failing) →
              aborted failing).
    { intros p rest failing Hlist Hrec Hcalls. rewrite Hlist in Hrun. simpl walk in Hrun.
      rewrite (walk_iter_fault _ _ _ _ _ _ Hdone Hrec) in Hrun.
      eexists. split; [exact Hrun |]. unfold written. cbn [files trace].
      split; [done |].
      rewrite api_calls_app,
        (api_calls_export_turn_fault _ _ _ _ _ _ _ _ _ _ _ _ _ _ _ Hshape Hdone Hrec).
      by rewrite Hcalls, Hbefore. }
    split.
    + intros Hfault. rewrite (raises_after_walk _ _ _ _ _ Hdone Hfault) in Hrun.
      eexists. split; [exact Hrun |]. unfold written. cbn [files trace].
      split; [done |].
      rewrite api_calls_app,
        (api_calls_export_fault _ _ _ _ _ _ _ _ _ _ _ _ _ _ Hshape Hdone Hfault).
      by rewrite Hbefore, app_nil_r.
    + intros p rest p_id Hlist Hp. split.
      * intros Hget. apply (Hturn p rest); [done | |].
        -- unfold project_record. by rewrite Hp, Hget.
        -- intros count. unfold project_turn. by rewrite Hp, Hget.
      * intros proj Hget Hmembers. apply (Hturn p rest); [done | |].
        -- unfold project_record. rewrite Hp, Hget.
           destruct Hmembers as [-> | ([proj_id Hid] & seen & ->)]; [done |].
           rewrite Hid. unfold format_members. by rewrite members_loop_raises.
        -- intros count. unfold project_turn. rewrite Hp, Hget.
           destruct Hmembers as [-> | ([proj_id Hid] & seen & ->)]; [done |].
           rewrite Hid. unfold format_members. by rewrite members_loop_raises.
  - intros gl out members_scope sleep_s w done ids rows e Hids Hdone inherited aborted.
    pose proof (export_groups_events gl out members_scope sleep_s w) as Hrun.
    cbv zeta in Hrun. unfold groups_events in Hrun.
    pose proof (group_turn_shape gl members_scope sleep_s) as Hshape.
    assert (Hbefore : concat (group_calls members_scope <$> done)
                      = concat ((λ i, [ApiGroupsGet i; ApiGroupMembers i inherited])
                                <$> ids)).
    { apply calls_of_ids; [| done]. intros y i Hy. unfold group_calls. by rewrite Hy. }
    assert (Hturn : ∀ g rest failing,
              gl_groups_list gl = Ret (iter_app done (Yield g rest)) →
              group_record gl members_scope g = Raise e →
              (∀ count, api_calls (group_turn gl members_scope sleep_s g count) = failing) →
              aborted failing).
    { intros g rest failing Hlist Hrec Hcalls. rewrite Hlist in Hrun. simpl walk in Hrun.
      rewrite (walk_iter_fault _ _ _ _ _ _ Hdone Hrec) in Hrun.
      eexists. split; [exact Hrun |]. unfold written. cbn [files trace].
      split; [done |].
      rewrite api_calls_app,
        (api_calls_export_turn_fault _ _ _ _ _ _ _ _ _ _ _ _ _ _ _ Hshape Hdone Hrec).
      by rewrite Hcalls, Hbefore. }
    split.
    + intros Hfault. rewrite (raises_after_walk _ _ _ _ _ Hdone Hfault) in Hrun.
      eexists. split; [exact Hrun |]. unfold written. cbn [files trace].
      split; [done |].
      rewrite api_calls_app,
        (api_calls_export_fault _ _ _ _ _ _ _ _ _ _ _ _ _ _ Hshape Hdone Hfault).
      by rewrite Hbefore, app_nil_r.
    + intros g rest g_id Hlist Hg. split.
      * intros Hget. apply (Hturn g rest); [done | |].
        -- unfold group_record. by rewrite Hg, Hget.
        -- intros count. unfold group_turn. by rewrite Hg, Hget.
      * intros grp Hget Hmembers. apply (Hturn g rest); [done | |].
        -- unfold group_record. rewrite Hg, Hget.
           destruct Hmembers as [-> | ([grp_id Hid] & seen & ->)]; [done |].
           rewrite Hid. unfold format_members. by rewrite members_loop_raises.
        -- intros count. unfold group_turn. rewrite Hg, Hget.
           destruct Hmembers as [-> | ([grp_id Hid] & seen & ->)]; [done |].
           rewrite Hid. unfold format_members. by rewrite members_loop_raises.
  - intros gl out sleep_s w done ids rows e Hids Hdone aborted.
    pose proof (export_users_events gl out sleep_s w) as Hrun.
    cbv zeta in Hrun. unfold users_events in Hrun.
    pose proof (user_turn_shape gl sleep_s) as Hshape.
    assert (Hbefore : concat (user_calls <$> done) = ApiUsersGet <$> ids).
    { rewrite (calls_of_ids user_calls (λ i, [ApiUsersGet i]) done ids); [| | done].
      - clear. induction ids as [|i ids IH]; [done |]. simpl. f_equal. exact IH.
      - intros y i Hy. unfold user_calls. by rewrite Hy. }
    split.
    + intros Hfault. rewrite (raises_after_walk _ _ _ _ _ Hdone Hfault) in Hrun.
      eexists. split; [exact Hrun |]. unfold written. cbn [files trace].
      split; [done |].
      rewrite api_calls_app,
        (api_calls_export_fault _ _ _ _ _ _ _ _ _ _ _ _ _ _ Hshape Hdone Hfault).
      by rewrite Hbefore, app_nil_r.
    + intros u rest u_id Hlist Hu Hget.
      assert (Hrec : user_record gl u = Raise e).
      { unfold user_record. by rewrite Hu, Hget. }
      rewrite Hlist in Hrun. simpl walk in Hrun.
      rewrite (walk_iter_fault _ _ _ _ _ _ Hdone Hrec) in Hrun.
      eexists. split; [exact Hrun |]. unfold written. cbn [files trace].
      split; [done |].
      rewrite api_calls_app,
        (api_calls_export_turn_fault _ _ _ _ _ _ _ _ _ _ _ _ _ _ _ Hshape Hdone Hrec).
      rewrite Hbefore. unfold user_turn. by rewrite Hu, Hget.
  - intros net args w before st after e Hurl Htoken gl out Hauth Hsts Hok He.
    destruct (main_aborts net args w before after st e Hurl Htoken Hauth Hsts Hok He)
      as (t & Hrun & Ht).
    destruct (main_runs_exporters net args w Hurl Htoken Hauth) as [line Hmain].
    fold gl out in Hmain.
    assert (Hnd : NoDup (st_file <$> before ++ [st])).
    { pose proof (NoDup_stage_files gl args out) as Hnd.
      rewrite Hsts, cons_middle, (assoc_L (++)), fmap_app in Hnd.
      by apply NoDup_app in Hnd as [Hnd _]. }
    eexists _, t, line. split; [exact Hrun |]. split.
    { set (w0 := World (files w) ({[out]} ∪ dirs w) (clock w)
                   (trace w ++ [EvMkdir out; EvStderr line; EvApi ApiAuth])) in *.
      set (n := S (length before)).
      assert (Hprefix : Forall2 performs (take n (exporters gl args out)) (before ++ [st])).
      { replace (before ++ [st]) with (take n (stages gl args out)).
        - apply Forall2_take, performs_stages.
        - rewrite Hsts, cons_middle, (assoc_L (++)). subst n.
          rewrite take_app_length'; [done |]. rewrite length_app. simpl. lia. }
      destruct (chain_aborts _ _ (ret tt) before [] st e Hprefix eq_refl Hok He w0)
        as (t' & Hcut & _).
      pose proof (chain_cut (exporters gl args out) (print (path_str out)) n w0 e) as Hrest.
      rewrite Hcut in Hrest. specialize (Hrest eq_refl). cbn [snd] in Hrest.
      rewrite Hcut. rewrite Hmain, Hrest in Hrun. exact Hrun. }
    cbn [files trace]. split; [done |]. split.
    { by rewrite <- opens_milestones, Ht, opens_stage_marks. }
    split; [exact Ht |]. split; [| split].
    + apply lookup_stage_output. apply not_elem_of_nil.
    + intros b Hb. apply lookup_stage_output_elem; [done |].
      apply elem_of_app. by left.
    + intros p Hp. by apply lookup_stage_output_ne.
Qed.

Lemma errors_abort_the_run_witness :
  (∃ w', export_projects stale_gl ["out"; "projects.csv"] false "direct" 0 sample_world
         = (Raise (GitlabError "404 Project Not Found"), w')
         ∧ files w' = {[ ["out"; "projects.csv"] := [projects_fields; demo_row] ]}
         ∧ api_calls (trace w')
           = [ApiProjectsList false; ApiProjectsGet (VInt 1);
              ApiProjectMembers (VInt 1) false; ApiProjectsGet (VInt 2)])
  ∧ (∃ w', export_users faulty_gl ["out"; "users.csv"] 0 sample_world
           = (Raise (GitlabError "429 Too Many Requests"), w')
           ∧ files w'
             = {[ ["out"; "users.csv"] := [users_fields; user_row "5"; user_row "6"] ]}
           ∧ api_calls (trace w')
             = [ApiUsersList; ApiUsersGet (VInt 5); ApiUsersGet (VInt 6)])
  ∧ (∃ w', export_users guarded_gl ["out"; "users.csv"] 0 sample_world
           = (Raise (GitlabError "403 Forbidden"), w')
           ∧ files w' = {[ ["out"; "users.csv"] := [users_fields; user_row "5"] ]}
           ∧ api_calls (trace w')
             = [ApiUsersList; ApiUsersGet (VInt 5); ApiUsersGet (VInt 6)])
  ∧ (∃ w' t, main (λ _ _ _, faulty_gl) sample_args sample_world
             = (Raise (GitlabError "429 Too Many Requests"), w')
             ∧ trace w' = t
             ∧ opens t = [ ["out"; "projects.csv"]; ["out"; "groups.csv"];
                           ["out"; "users.csv"] ]
             ∧ files w' !! ["out"; "users.csv"]
               = Some [users_fields; user_row "5"; user_row "6"]
             ∧ files w' !! ["out"; "projects.csv"] = Some [projects_fields; demo_row]).
Proof.
  destruct errors_abort_the_run as (Hprojects & _ & Husers & Hmain).
  split; [| split; [| split]].
  - assert (Hids : Forall2 (λ (p : obj) i, p !! "id" = Some i) [listed 1] [VInt 1])
      by repeat constructor.
    assert (Hdone : Forall2 (λ p r, project_record stale_gl "direct" p = Ret r)
                      [listed 1] [demo_row]) by repeat constructor.
    destruct (Hprojects stale_gl ["out"; "projects.csv"] false "direct" 0%Q sample_world
                [listed 1] [VInt 1] [demo_row] (GitlabError "404 Project Not Found")
                Hids Hdone) as [_ Hentity].
    destruct (Hentity (listed 2) StopIteration (VInt 2) eq_refl eq_refl) as [Hget _].
    exact (Hget eq_refl).
  - assert (Hids : Forall2 (λ (u : obj) i, u !! "id" = Some i)
                     [listed 5; listed 6] [VInt 5; VInt 6]) by repeat constructor.
    assert (Hdone : Forall2 (λ u r, user_record faulty_gl u = Ret r)
                      [listed 5; listed 6] [user_row "5"; user_row "6"])
      by repeat constructor.
    destruct (Husers faulty_gl ["out"; "users.csv"] 0%Q sample_world
                [listed 5; listed 6] [VInt 5; VInt 6] [user_row "5"; user_row "6"]
                (GitlabError "429 Too Many Requests") Hids Hdone) as [Hlist _].
    apply Hlist. by right.
  - assert (Hids : Forall2 (λ (u : obj) i, u !! "id" = Some i) [listed 5] [VInt 5])
      by repeat constructor.
    assert (Hdone : Forall2 (λ u r, user_record guarded_gl u = Ret r)
                      [listed 5] [user_row "5"]) by repeat constructor.
    destruct (Husers guarded_gl ["out"; "users.csv"] 0%Q sample_world
                [listed 5] [VInt 5] [user_row "5"] (GitlabError "403 Forbidden")
                Hids Hdone) as [_ Hentity].
    exact (Hentity (listed 6) (iter_of [listed 7]) (VInt 6) eq_refl eq_refl eq_refl).
  - pose (s1 := Stage ["out"; "projects.csv"] projects_fields (ApiProjectsList false)
                  (walk (project_record faulty_gl "direct") (gl_projects_list faulty_gl false))).
    pose (s2 := Stage ["out"; "groups.csv"] groups_fields ApiGroupsList
                  (walk (group_record faulty_gl "direct") (gl_groups_list faulty_gl))).
    pose (s3 := Stage ["out"; "users.csv"] users_fields ApiUsersList
                  (walk (user_record faulty_gl) (gl_users_list faulty_gl))).
    destruct (Hmain (λ _ _ _, faulty_gl) sample_args sample_world [s1; s2] s3 []
                (GitlabError "429 Too Many Requests"))
      as (w' & t & line & Hrun & _ & Htrace & Hopens & _ & Husersfile & Hbefore & _);
      [discriminate | discriminate | reflexivity | reflexivity
      | by repeat constructor | reflexivity |].
    exists w', t. split; [exact Hrun |]. split; [exact Htrace |].
    split; [exact Hopens |]. split; [exact Husersfile |].
    apply (Hbefore s1). by left.
Defined.
